(** * Co-occurrence / PMI procedure and embedding explorer

    Shallow embedding of the notebook
    [retail/recommendation-system/bqml-scann/01_train_bqml_mf_pmi.ipynb]:

    - the stored procedure [sp_ComputePMI] (cell 26), statement by statement,
      over tables modelled as lists of rows (SQL bags);
    - the stored procedure [sp_TrainItemMatchingModel] (cell 34), up to the
      request it hands to the external trainer;
    - the Python function [process_results] (cell 40) and the similarity
      exploration loop (cell 41).

    Conventions.  INT64 columns are [Z]; the columns of [vw_item_groups] are
    taken to be non-NULL.  A GROUP BY lists its groups in order of first
    appearance of the key (SQL leaves the order open).  FLOAT64 values of
    the procedure are kept abstract (class [Float64]); Python floats that are
    only added are IEEE binary64 ([PrimFloat]). *)

From Stdlib Require Import ZArith List Bool Lia String Permutation Sorted Floats Finite.
Import ListNotations.
Open Scope Z_scope.

(** ** Outcome of a statement: a value or an error *)

Inductive result (A : Type) : Type :=
| Ok (a : A)
| Error (msg : string).
Arguments Ok {A} a.
Arguments Error {A} msg.

Definition bind {A B : Type} (m : result A) (k : A -> result B) : result B :=
  match m with
  | Ok a => k a
  | Error e => Error e
  end.

Notation "x <- m ;; k" := (bind m (fun x => k))
  (at level 61, m at next level, right associativity).

Fixpoint mapM {A B : Type} (f : A -> result B) (l : list A) : result (list B) :=
  match l with
  | [] => Ok []
  | x :: t => y <- f x ;; ys <- mapM f t ;; Ok (y :: ys)
  end.

(** ** Relational operators *)

Section Relational.
Context {A K : Type} (K_dec : forall x y : K, {x = y} + {x <> y}).

Definition key_eqb (x y : K) : bool := if K_dec x y then true else false.

(** [x IN (SELECT ...)] *)
Definition IN (x : K) (l : list K) : bool := existsb (key_eqb x) l.

(** The distinct keys of a column, each at its first appearance. *)
Fixpoint distinct (l : list K) : list K :=
  match l with
  | [] => []
  | x :: t => x :: filter (fun y => negb (key_eqb x y)) (distinct t)
  end.

Definition group_rows (key : A -> K) (rows : list A) (k : K) : list A :=
  filter (fun r => key_eqb (key r) k) rows.

(** [GROUP BY key]: one entry per distinct key, with the rows of its group. *)
Definition GROUP_BY (key : A -> K) (rows : list A) : list (K * list A) :=
  map (fun k => (k, group_rows key rows k)) (distinct (map key rows)).
End Relational.

(** [COUNT(col)] over the rows of a group (no NULLs). *)
Definition COUNT {A : Type} (g : list A) : Z := Z.of_nat (List.length g).

(** [SUM(col)] over the rows of a group.  A group of a GROUP BY is never
    empty, so no NULL arises here. *)
Definition SUM (l : list Z) : Z := fold_right Z.add 0 l.

(** [SUM(col)] as a scalar subquery: NULL ([None]) over an empty table. *)
Definition SUM_scalar (l : list Z) : option Z :=
  match l with
  | [] => None
  | _ => Some (SUM l)
  end.

(** [MAX(col)] over the rows of a (non-empty) group. *)
Definition MAX (l : list Z) : Z :=
  match l with
  | [] => 0
  | x :: t => fold_left Z.max t x
  end.

Definition pair_dec (x y : Z * Z) : {x = y} + {x <> y}.
Proof. decide equality; apply Z.eq_dec. Defined.

(** ** Tables of the procedure *)

(** A row of the view [recommendations.vw_item_groups] and of the table
    [recommendations.valid_item_groups]. *)
Record item_group : Type := { item_Id : Z; group_Id : Z }.

(** A row of [recommendations.item_cooc] before the PMI column is added. *)
Record cooc_row : Type := { item1_Id : Z; item2_Id : Z; cooc : Z }.

(** A row of [recommendations.item_frequency]. *)
Record frequency_row : Type := { freq_item_Id : Z; frequency : Z }.

Definition item_group_dec (x y : item_group) : {x = y} + {x <> y}.
Proof. decide equality; apply Z.eq_dec. Defined.

(** ** [sp_ComputePMI], statement by statement *)

(** CTE [valid_items]: (item_Id, item_frequency), computed on the view. *)
Definition valid_items (vw : list item_group) (min_item_frequency : Z)
  : list (Z * Z) :=
  filter (fun r => min_item_frequency <=? snd r)
    (map (fun kg => (fst kg, COUNT (snd kg))) (GROUP_BY Z.eq_dec item_Id vw)).

(** CTE [valid_groups]: (group_Id, group_size), computed on the rows of the
    view whose item is in [valid_items]. *)
Definition valid_groups (vw : list item_group)
  (min_item_frequency max_group_size : Z) : list (Z * Z) :=
  filter (fun r => (2 <=? snd r) && (snd r <=? max_group_size))
    (map (fun kg => (fst kg, COUNT (snd kg)))
       (GROUP_BY Z.eq_dec group_Id
          (filter (fun r => IN Z.eq_dec (item_Id r)
                              (map fst (valid_items vw min_item_frequency)))
             vw))).

(** Table [valid_item_groups]. *)
Definition valid_item_groups (vw : list item_group)
  (min_item_frequency max_group_size : Z) : list item_group :=
  filter (fun r =>
            IN Z.eq_dec (item_Id r) (map fst (valid_items vw min_item_frequency))
            && IN Z.eq_dec (group_Id r)
                 (map fst (valid_groups vw min_item_frequency max_group_size)))
    vw.

(** The self join of [valid_item_groups] on equal group and [a.item_Id <
    b.item_Id], each match giving a row with [cooc = 1]. *)
Definition cooc_join (vig : list item_group) : list cooc_row :=
  flat_map (fun a =>
              map (fun b => {| item1_Id := item_Id a; item2_Id := item_Id b; cooc := 1 |})
                (filter (fun b => (group_Id a =? group_Id b) && (item_Id a <? item_Id b))
                   vig))
    vig.

Definition pair_key (r : cooc_row) : Z * Z := (item1_Id r, item2_Id r).

(** Table [item_cooc] after "Compute pairwise cooc". *)
Definition item_cooc_pairwise (vig : list item_group) : list cooc_row :=
  map (fun kg => {| item1_Id := fst (fst kg); item2_Id := snd (fst kg);
                    cooc := SUM (map cooc (snd kg)) |})
    (GROUP_BY pair_dec pair_key (cooc_join vig)).

(** Table [item_frequency]. *)
Definition item_frequency (vig : list item_group) : list frequency_row :=
  map (fun kg => {| freq_item_Id := fst kg; frequency := COUNT (snd kg) |})
    (GROUP_BY Z.eq_dec item_Id vig).

(** [SET total = (SELECT SUM(frequency) FROM item_frequency)]. *)
Definition total_frequency (freqs : list frequency_row) : option Z :=
  SUM_scalar (map frequency freqs).

(** Table [item_cooc] after "Add same item frequency as cooc". *)
Definition item_cooc_with_self (pairs : list cooc_row) (freqs : list frequency_row)
  : list cooc_row :=
  pairs ++ map (fun f => {| item1_Id := freq_item_Id f; item2_Id := freq_item_Id f;
                            cooc := frequency f |}) freqs.

(** *** Negative samples *)

Section Sorting.
Context {A : Type} (lt : A -> A -> bool).

(** Stable sort in descending order: an element is placed after the
    elements that are strictly greater and before the first one that is
    not, so rows that compare equal keep their input order. *)
Fixpoint insert_desc (x : A) (l : list A) : list A :=
  match l with
  | [] => [x]
  | y :: t => if lt x y then y :: insert_desc x t else x :: y :: t
  end.

Definition sort_desc (l : list A) : list A := fold_right insert_desc [] l.
End Sorting.

(** CTE [ordered_items]: (number, item_Id) with
    [ROW_NUMBER() OVER (ORDER BY frequency DESC)]; rows of equal frequency
    are numbered in table order. *)
Definition ordered_items (freqs : list frequency_row) : list (Z * Z) :=
  let sorted := sort_desc (fun a b => frequency a <? frequency b) freqs in
  combine (map Z.of_nat (seq 1 (List.length sorted))) (map freq_item_Id sorted).

(** CTE [top_items]: a single column, [item_Id]. *)
Definition top_items (negative_sample_size : Z) (freqs : list frequency_row)
  : list Z :=
  map snd (filter (fun r => fst r <=? negative_sample_size) (ordered_items freqs)).

(** Column resolution on a row of [top_items]. *)
Definition top_items_column (name : string) : option (Z -> Z) :=
  if String.eqb name "item_Id" then Some (fun item => item) else None.

(** CTE [negative_samples]: the select list reads [a.item] and [b.item],
    the join condition reads [a.item_Id] and [b.item_Id]. *)
Definition negative_samples (top : list Z) : result (list cooc_row) :=
  match top_items_column "item", top_items_column "item_Id" with
  | Some item, Some item_Id' =>
      Ok (flat_map (fun a =>
                      map (fun b => {| item1_Id := item a; item2_Id := item b; cooc := 1 |})
                        (filter (fun b => item_Id' a <? item_Id' b) top))
            top)
  | None, _ => Error "Name item not found inside a"
  | _, None => Error "Name item_Id not found inside a"
  end.

(** [SELECT item1_Id, item2_Id, MAX(cooc) FROM merged GROUP BY item1_Id,
    item2_Id]. *)
Definition merge_max (merged : list cooc_row) : list cooc_row :=
  map (fun kg => {| item1_Id := fst (fst kg); item2_Id := snd (fst kg);
                    cooc := MAX (map cooc (snd kg)) |})
    (GROUP_BY pair_dec pair_key merged).

(** The variables a statement of the procedure can name: the two
    parameters of its header and the declared [total]. *)
Definition procedure_variables (min_item_frequency max_group_size : Z)
  (total : option Z) : list (string * option Z) :=
  [ ("min_item_frequency", Some min_item_frequency);
    ("max_group_size", Some max_group_size);
    ("total", total) ]%string.

(** The value a name resolves to; [None] when nothing declares it. *)
Fixpoint variable (vars : list (string * option Z)) (name : string)
  : option (option Z) :=
  match vars with
  | [] => None
  | (n, v) :: rest => if String.eqb n name then Some v else variable rest name
  end.

(** Table [item_cooc] after the block "Create negative samples", for the
    value [negative_sample_size] resolves to; a NULL is not greater than 0. *)
Definition item_cooc_with_negatives (negative_sample_size : option Z)
  (item_cooc : list cooc_row) (freqs : list frequency_row)
  : result (list cooc_row) :=
  match negative_sample_size with
  | Some n =>
      if 0 <? n then
        neg <- negative_samples (top_items n freqs) ;;
        Ok (merge_max (item_cooc ++ neg))
      else Ok item_cooc
  | None => Ok item_cooc
  end.

(** *** PMI *)

(** FLOAT64 operations the procedures use: [LOG(x, 2)] of a positive INT64,
    subtraction, addition, and the product of an INT64 by a FLOAT64. *)
Class Float64 (F : Type) : Type := {
  LOG2 : Z -> F;
  float_sub : F -> F -> F;
  float_add : F -> F -> F;
  float_mul_int : Z -> F -> F
}.

(** FLOAT64 terms left unevaluated: the free instance. *)
Inductive float_expr : Type :=
| ELog2 (x : Z)
| ESub (a b : float_expr)
| EAdd (a b : float_expr)
| EMulInt (c : Z) (a : float_expr).

#[export] Instance Float64_expr : Float64 float_expr := {
  LOG2 := ELog2;
  float_sub := ESub;
  float_add := EAdd;
  float_mul_int := EMulInt
}.

(** A row of the final [recommendations.item_cooc]; [pmi] is nullable. *)
Record pmi_row (F : Type) : Type := {
  pmi_item1_Id : Z;
  pmi_item2_Id : Z;
  pmi_cooc : Z;
  pmi : option F
}.
Arguments pmi_item1_Id {F} _.
Arguments pmi_item2_Id {F} _.
Arguments pmi_cooc {F} _.
Arguments pmi {F} _.

(** The pair and the count of a row that has the PMI column. *)
Definition cooc_part {F : Type} (r : pmi_row F) : cooc_row :=
  {| item1_Id := pmi_item1_Id r; item2_Id := pmi_item2_Id r; cooc := pmi_cooc r |}.

(** The table [recommendations.item_cooc]: the procedure first creates it
    with the columns (item1_Id, item2_Id, cooc) and its last statement
    replaces it by a table that also has [pmi]. *)
Inductive item_cooc_table (F : Type) : Type :=
| WithoutPmi (rows : list cooc_row)
| WithPmi (rows : list (pmi_row F)).
Arguments WithoutPmi {F} rows.
Arguments WithPmi {F} rows.

(** [SELECT item1_Id, item2_Id, cooc FROM recommendations.item_cooc] *)
Definition cooc_columns {F : Type} (t : item_cooc_table F) : list cooc_row :=
  match t with
  | WithoutPmi rows => rows
  | WithPmi rows => map cooc_part rows
  end.

(** The three tables of the dataset that the procedures write and read. *)
Record database (F : Type) : Type := {
  db_valid_item_groups : list item_group;
  db_item_frequency : list frequency_row;
  db_item_cooc : item_cooc_table F
}.
Arguments db_valid_item_groups {F} _.
Arguments db_item_frequency {F} _.
Arguments db_item_cooc {F} _.

Definition replace_valid_item_groups {F : Type} (rows : list item_group)
  (db : database F) : database F :=
  {| db_valid_item_groups := rows;
     db_item_frequency := db_item_frequency db;
     db_item_cooc := db_item_cooc db |}.

Definition replace_item_frequency {F : Type} (rows : list frequency_row)
  (db : database F) : database F :=
  {| db_valid_item_groups := db_valid_item_groups db;
     db_item_frequency := rows;
     db_item_cooc := db_item_cooc db |}.

Definition replace_item_cooc {F : Type} (t : item_cooc_table F)
  (db : database F) : database F :=
  {| db_valid_item_groups := db_valid_item_groups db;
     db_item_frequency := db_item_frequency db;
     db_item_cooc := t |}.

(** What [sp_TrainItemMatchingModel] hands to the trainer. *)
Record training_request (F : Type) : Type := {
  MODEL_TYPE : string;
  FEEDBACK_TYPE : string;
  WALS_ALPHA : Z;
  NUM_FACTORS : Z;
  USER_COL : string;
  ITEM_COL : string;
  RATING_COL : string;
  DATA_SPLIT_METHOD : string;
  training_rows : list (Z * Z * option F)
}.
Arguments NUM_FACTORS {F} _.
Arguments training_rows {F} _.

Section Pmi.
Context {F : Type} `{Float64 F}.

(** [LOG(x, 2)]: NULL for NULL, an error for [x <= 0]. *)
Definition LOG (x : option Z) : result (option F) :=
  match x with
  | None => Ok None
  | Some v => if v <=? 0 then Error "LOG is undefined for non-positive value"
              else Ok (Some (LOG2 v))
  end.

Definition null_lift2 (op : F -> F -> F) (a b : option F) : option F :=
  match a, b with
  | Some x, Some y => Some (op x y)
  | _, _ => None
  end.

(** [LOG(a.cooc, 2) - LOG(b.frequency, 2) - LOG(c.frequency, 2) + LOG(total, 2)] *)
Definition pmi_value (a_cooc b_frequency c_frequency : Z) (total : option Z)
  : result (option F) :=
  l1 <- LOG (Some a_cooc) ;;
  l2 <- LOG (Some b_frequency) ;;
  l3 <- LOG (Some c_frequency) ;;
  l4 <- LOG total ;;
  Ok (null_lift2 float_add (null_lift2 float_sub (null_lift2 float_sub l1 l2) l3) l4).

(** The value of the PMI expression on positive arguments:
    log2(c) - log2(f1) - log2(f2) + log2(t). *)
Definition pmi_formula (c f1 f2 t : Z) : F :=
  float_add (float_sub (float_sub (LOG2 c) (LOG2 f1)) (LOG2 f2)) (LOG2 t).

(** [item_cooc a JOIN item_frequency b ON a.item1_Id = b.item_Id
     JOIN item_frequency c ON a.item2_Id = c.item_Id] *)
Definition pmi_join (item_cooc : list cooc_row) (freqs : list frequency_row)
  : list (cooc_row * frequency_row * frequency_row) :=
  flat_map (fun a =>
    flat_map (fun b =>
      map (fun c => (a, b, c))
        (filter (fun c => item2_Id a =? freq_item_Id c) freqs))
      (filter (fun b => item1_Id a =? freq_item_Id b) freqs))
    item_cooc.

(** Table [item_cooc] after "Compute PMI". *)
Definition item_cooc_pmi (item_cooc : list cooc_row) (freqs : list frequency_row)
  (total : option Z) : result (list (pmi_row F)) :=
  mapM (fun abc =>
          let '(a, b, c) := abc in
          p <- pmi_value (cooc a) (frequency b) (frequency c) total ;;
          Ok {| pmi_item1_Id := item1_Id a; pmi_item2_Id := item2_Id a;
                pmi_cooc := cooc a; pmi := p |})
    (pmi_join item_cooc freqs).

(** [CALL recommendations.sp_ComputePMI(min_item_frequency, max_group_size)]
    on the rows [vw] of [vw_item_groups], from the database [db]: the
    database the call leaves and its outcome.  Each CREATE OR REPLACE TABLE
    takes effect as it runs; a statement that fails leaves the tables as the
    statements before it made them, and ends the call. *)
Definition sp_ComputePMI (vw : list item_group)
  (min_item_frequency max_group_size : Z) (db : database F)
  : database F * result unit :=
  let db1 :=
    replace_valid_item_groups
      (valid_item_groups vw min_item_frequency max_group_size) db in
  let db2 :=
    replace_item_cooc (WithoutPmi (item_cooc_pairwise (db_valid_item_groups db1))) db1 in
  let db3 :=
    replace_item_frequency (item_frequency (db_valid_item_groups db2)) db2 in
  let total := total_frequency (db_item_frequency db3) in
  let db4 :=
    replace_item_cooc
      (WithoutPmi (item_cooc_with_self (cooc_columns (db_item_cooc db3))
                     (db_item_frequency db3))) db3 in
  match variable (procedure_variables min_item_frequency max_group_size total)
          "negative_sample_size" with
  | None => (db4, Error "Unrecognized name: negative_sample_size")
  | Some negative_sample_size =>
      match item_cooc_with_negatives negative_sample_size
              (cooc_columns (db_item_cooc db4)) (db_item_frequency db4) with
      | Error msg => (db4, Error msg)
      | Ok with_negatives =>
          let db5 := replace_item_cooc (WithoutPmi with_negatives) db4 in
          match item_cooc_pmi (cooc_columns (db_item_cooc db5))
                  (db_item_frequency db5) total with
          | Error msg => (db5, Error msg)
          | Ok with_pmi => (replace_item_cooc (WithPmi with_pmi) db5, Ok tt)
          end
      end
  end.

(** [cooc * pmi AS score] *)
Definition score (r : pmi_row F) : option F :=
  option_map (float_mul_int (pmi_cooc r)) (pmi r).

(** [CALL recommendations.sp_TrainItemMatchingModel(dimensions)]: the
    CREATE MODEL request built from [recommendations.item_cooc], or the
    error of its query when the table has no [pmi] column. *)
Definition sp_TrainItemMatchingModel (dimensions : Z) (db : database F)
  : result (training_request F) :=
  match db_item_cooc db with
  | WithoutPmi _ => Error "Unrecognized name: pmi"
  | WithPmi item_cooc =>
      Ok {| MODEL_TYPE := "matrix_factorization";
            FEEDBACK_TYPE := "implicit";
            WALS_ALPHA := 1;
            NUM_FACTORS := dimensions;
            USER_COL := "item1_Id";
            ITEM_COL := "item2_Id";
            RATING_COL := "score";
            DATA_SPLIT_METHOD := "no_split";
            training_rows :=
              map (fun r => (pmi_item1_Id r, pmi_item2_Id r, score r)) item_cooc |}
  end.
End Pmi.

(** *** Step 1 as the specification words it

    Both filters on the unfiltered view, then the intersection; kept next to
    [valid_groups] and [valid_item_groups] for comparison. *)
Definition valid_groups_unfiltered (vw : list item_group) (max_group_size : Z)
  : list (Z * Z) :=
  filter (fun r => (2 <=? snd r) && (snd r <=? max_group_size))
    (map (fun kg => (fst kg, COUNT (snd kg))) (GROUP_BY Z.eq_dec group_Id vw)).

Definition valid_item_groups_independent (vw : list item_group)
  (min_item_frequency max_group_size : Z) : list item_group :=
  filter (fun r =>
            IN Z.eq_dec (item_Id r) (map fst (valid_items vw min_item_frequency))
            && IN Z.eq_dec (group_Id r)
                 (map fst (valid_groups_unfiltered vw max_group_size)))
    vw.

(** ** The embedding builder (cell 40) *)

(** An element of [factor_weights] and a row of the [ML.WEIGHTS] result. *)
Record factor_weight : Type := { factor : Z; weight : float }.
Record weights_row : Type := { feature : string; factor_weights : list factor_weight }.

Fixpoint foldM {A B : Type} (f : B -> A -> result B) (l : list A) (b : B)
  : result B :=
  match l with
  | [] => Ok b
  | x :: t => b' <- f b x ;; foldM f t b'
  end.

(** Position addressed by a Python list index: counted from the end when
    negative, [IndexError] outside [-len, len). *)
Definition py_index (len : nat) (i : Z) : result nat :=
  if (0 <=? i) && (i <? Z.of_nat len) then Ok (Z.to_nat i)
  else if (- Z.of_nat len <=? i) && (i <? 0) then Ok (Z.to_nat (Z.of_nat len + i))
  else Error "IndexError: list index out of range".

(** [l[n] += w] at a position inside the list. *)
Fixpoint add_at (l : list float) (n : nat) (w : float) : list float :=
  match l, n with
  | [], _ => []
  | x :: t, O => (x + w)%float :: t
  | x :: t, S n' => x :: add_at t n' w
  end.

(** [emebedding[element['factor'] - 1] += element['weight']] *)
Definition accumulate (emebedding : list float) (element : factor_weight)
  : result (list float) :=
  n <- py_index (List.length emebedding) (factor element - 1) ;;
  Ok (add_at emebedding n (weight element)).

(** The hard-wired length of [[0.0] * 100]. *)
Definition embedding_size : nat := 100.

(** The rows of one item, [results[results['feature'] == item]]. *)
Definition embedding_pair (results : list weights_row) (item : string)
  : list weights_row :=
  filter (fun r => key_eqb string_dec (feature r) item) results.

Definition item_embedding (results : list weights_row) (item : string)
  : result (list float) :=
  foldM (fun emebedding row => foldM accumulate (factor_weights row) emebedding)
    (embedding_pair results item) (repeat 0%float embedding_size).

(** [process_results]: the dictionary as the list of its entries in
    insertion order; the keys are distinct by construction. *)
Definition process_results (results : list weights_row)
  : result (list (string * list float)) :=
  mapM (fun item => e <- item_embedding results item ;; Ok (item, e))
    (distinct string_dec (map feature results)).

(** ** The similarity exploration loop (cell 41) *)

(** [d[k]], a [KeyError] when the key is absent. *)
Fixpoint dict_get {V : Type} (d : list (string * V)) (k : string) : result V :=
  match d with
  | [] => Error "KeyError"
  | (k', v) :: t => if String.eqb k' k then Ok v else dict_get t k
  end.

Section Explorer.
(** Similarity values with Python's [<]; [cosine_similarity] of
    scikit-learn and [round(_, 5)] are taken as given. *)
Context {S : Type} (lt : S -> S -> bool).
Context (cosine_similarity : list float -> list float -> S) (round5 : S -> S).
Context (songs : list (string * string)).

(** The value appended for [item2_Id] in the inner loop. *)
Definition similarity_entry (item_embeddings : list (string * list float))
  (embedding1 : list float) (item2_Id : string) : result (string * S) :=
  title2 <- dict_get songs item2_Id ;;
  embedding2 <- dict_get item_embeddings item2_Id ;;
  Ok (title2, round5 (cosine_similarity embedding1 embedding2)).

(** [sorted(similar_items, key=lambda item: item[1], reverse=True)]: Python's
    sort is stable, with [reverse=True] too, so on similarities that [<]
    orders it returns what the insertion sort returns. *)
Definition sorted_by_similarity (similar_items : list (string * S))
  : list (string * S) :=
  sort_desc (fun a b => lt (snd a) (snd b)) similar_items.

(** One round of the outer loop: the title printed and the elements of
    [similar_items[1:]] printed under it. *)
Definition explore_item (item_embeddings : list (string * list float))
  (item_ids : list string) (item1_Id : string)
  : result (string * list (string * S)) :=
  title1 <- dict_get songs item1_Id ;;
  embedding1 <- dict_get item_embeddings item1_Id ;;
  similar_items <- mapM (similarity_entry item_embeddings embedding1) item_ids ;;
  Ok (title1, tl (sorted_by_similarity similar_items)).

(** The whole loop, [for idx1 in range(0, len(item_ids) - 1)]. *)
Definition explore (item_embeddings : list (string * list float))
  : result (list (string * list (string * S))) :=
  let item_ids := map fst item_embeddings in
  mapM (explore_item item_embeddings item_ids)
    (firstn (List.length item_ids - 1) item_ids).
End Explorer.

(** ** Quantities the statements below speak about *)

(** Number of rows of a membership relation for one item. *)
Definition item_count (rows : list item_group) (i : Z) : Z :=
  COUNT (group_rows Z.eq_dec item_Id rows i).

(** Size of a group when only the rows of items of frequency at least
    [min_item_frequency] are counted. *)
Definition group_size_among_valid (vw : list item_group)
  (min_item_frequency : Z) (g : Z) : Z :=
  COUNT (filter (fun r => (group_Id r =? g)
                          && (min_item_frequency <=? item_count vw (item_Id r))) vw).

(** The count stored for a pair, if the table has a row for it. *)
Definition cooc_of (tbl : list cooc_row) (i1 i2 : Z) : option Z :=
  option_map cooc (find (fun r => key_eqb pair_dec (pair_key r) (i1, i2)) tbl).

(** The valid groups that contain both [A] and [B]. *)
Definition shared_valid_groups (vw : list item_group)
  (min_item_frequency max_group_size A B : Z) : list Z :=
  filter (fun g => IN item_group_dec {| item_Id := A; group_Id := g |} vw
                   && IN item_group_dec {| item_Id := B; group_Id := g |} vw)
    (map fst (valid_groups vw min_item_frequency max_group_size)).

(** Canonical ordering in the strict form: [item1_Id < item2_Id] on every
    row of the co-occurrence table. *)
Definition strictly_ordered (tbl : list cooc_row) : Prop :=
  forall r, In r tbl -> item1_Id r < item2_Id r.

(** Rejection at entry: a call with [min_item_frequency < 1] or
    [max_group_size < 2] ends in an error and leaves the tables as it found
    them. *)
Definition rejects_invalid_configuration (F : Type) `{Float64 F} : Prop :=
  forall (vw : list item_group) (m M : Z) (db : database F),
    m < 1 \/ M < 2 ->
    fst (sp_ComputePMI vw m M db) = db
    /\ exists msg, snd (sp_ComputePMI vw m M db) = Error msg.

(** The frequency of an item after the restriction, counted on the view:
    the rows of the item, when its frequency in the view is at least
    [min_item_frequency], that lie in a group with between 2 and
    [max_group_size] rows of items of such frequency. *)
Definition filtered_frequency (vw : list item_group)
  (min_item_frequency max_group_size i : Z) : Z :=
  COUNT
    (filter (fun r =>
               (item_Id r =? i)
               && (min_item_frequency <=? item_count vw i)
               && ((2 <=? group_size_among_valid vw min_item_frequency (group_Id r))
                   && (group_size_among_valid vw min_item_frequency (group_Id r)
                       <=? max_group_size)))
       vw).

(** The weights that the rows of [item] hold for position [p], row after
    row; the rows of other items count for nothing. *)
Fixpoint weights_of_item (results : list weights_row) (item : string) (p : nat)
  : list float :=
  match results with
  | [] => []
  | row :: rest =>
      (if String.eqb (feature row) item
       then map weight (filter (fun e => factor e - 1 =? Z.of_nat p) (factor_weights row))
       else [])
      ++ weights_of_item rest item p
  end.

(** The weights an item contributes to position [p] of its vector, in the
    order the loops meet them. *)
Definition weights_at (results : list weights_row) (item : string) (p : nat)
  : list float :=
  map weight
    (filter (fun e => factor e - 1 =? Z.of_nat p)
       (flat_map factor_weights (embedding_pair results item))).

(** The candidates of a query [q] with their rounded similarities, in the
    order of [item_ids]; [title] and [emb] give the title and the embedding
    of an item. *)
Definition candidate_entries {S : Type}
  (cosine_similarity : list float -> list float -> S) (round5 : S -> S)
  (title : string -> string) (emb : string -> list float)
  (item_ids : list string) (q : string) : list (string * S) :=
  map (fun j => (title j, round5 (cosine_similarity (emb q) (emb j)))) item_ids.

(** Ranked by descending similarity: no entry is below a later one. *)
Definition descending {S : Type} (lt : S -> S -> bool) (l : list (string * S)) : Prop :=
  StronglySorted (fun a b => lt (snd a) (snd b) = false) l.

(** Every title has a printed list, and the list does not name the title
    itself. *)
Definition every_item_listed_without_itself {S : Type} (titles : list string)
  (out : list (string * list (string * S))) : Prop :=
  forall t, In t titles -> exists l, In (t, l) out /\ ~ In t (map fst l).

(** *** Example data for the explorer

    Three songs; the first two have the same embedding, the first unit
    vector, the third has the second unit vector.  The similarity of the
    example counts in units of 10^-5 and is 1.0 on equal vectors and 0.0
    otherwise, which is what the cosine of those vectors rounds to. *)
Definition unit_vector (k : nat) : list float :=
  repeat 0%float k ++ 1%float :: repeat 0%float (embedding_size - k - 1).

Definition example_embeddings : list (string * list float) :=
  [ ("a", unit_vector 0); ("b", unit_vector 0); ("c", unit_vector 1) ]%string.

Definition example_songs : list (string * string) :=
  [ ("a", "Song A"); ("b", "Song B"); ("c", "Song C") ]%string.

Fixpoint same_floats (x y : list float) : bool :=
  match x, y with
  | [], [] => true
  | a :: x', b :: y' => PrimFloat.eqb a b && same_floats x' y'
  | _, _ => false
  end.

Definition example_similarity (x y : list float) : Z :=
  if same_floats x y then 100000 else 0.

Definition example_title (i : string) : string :=
  match dict_get example_songs i with Ok t => t | Error _ => ""%string end.

Definition example_emb (i : string) : list float :=
  match dict_get example_embeddings i with Ok e => e | Error _ => [] end.

(** ** The preview of the co-occurrence table (cell 30) *)

(** A row of the preview: the pair, the frequencies of its two items, the
    count, the PMI and the score. *)
Record preview_row (F : Type) : Type := {
  pv_item1_Id : Z;
  pv_item2_Id : Z;
  pv_freq1 : Z;
  pv_freq2 : Z;
  pv_cooc : Z;
  pv_pmi : option F;
  pv_score : option F
}.
Arguments pv_item1_Id {F} _.
Arguments pv_item2_Id {F} _.
Arguments pv_freq1 {F} _.
Arguments pv_freq2 {F} _.
Arguments pv_cooc {F} _.
Arguments pv_pmi {F} _.
Arguments pv_score {F} _.

Section Preview.
Context {F : Type} `{Float64 F}.

(** [<] on FLOAT64, taken as given. *)
Context (float_lt : F -> F -> bool).

(** The order of ORDER BY on a nullable FLOAT64: NULL is below every value. *)
Definition score_lt (a b : option F) : bool :=
  match a, b with
  | Some x, Some y => float_lt x y
  | None, Some _ => true
  | _, _ => false
  end.

(** [item_cooc a JOIN item_frequency b ON a.item1_Id = b.item_Id
     JOIN item_frequency c ON a.item2_Id = c.item_Id
     WHERE a.item1_Id != a.item2_Id] *)
Definition preview_join (item_cooc : list (pmi_row F)) (freqs : list frequency_row)
  : list (pmi_row F * frequency_row * frequency_row) :=
  filter (fun abc => negb (pmi_item1_Id (fst (fst abc)) =? pmi_item2_Id (fst (fst abc))))
    (flat_map (fun a =>
       flat_map (fun b =>
         map (fun c => (a, b, c))
           (filter (fun c => pmi_item2_Id a =? freq_item_Id c) freqs))
         (filter (fun b => pmi_item1_Id a =? freq_item_Id b) freqs))
       item_cooc).

(** The select list of the preview. *)
Definition preview_select (abc : pmi_row F * frequency_row * frequency_row)
  : preview_row F :=
  let '(a, b, c) := abc in
  {| pv_item1_Id := pmi_item1_Id a; pv_item2_Id := pmi_item2_Id a;
     pv_freq1 := frequency b; pv_freq2 := frequency c;
     pv_cooc := pmi_cooc a; pv_pmi := pmi a; pv_score := score a |}.

(** The whole query, [ORDER BY score DESC LIMIT 10], on the tables of the
    database; rows of equal score stay in join order.  The query names
    [a.pmi]. *)
Definition view_cooccurrence (db : database F) : result (list (preview_row F)) :=
  match db_item_cooc db with
  | WithoutPmi _ => Error "Name pmi not found inside a"
  | WithPmi item_cooc =>
      Ok (firstn 10
            (sort_desc (fun x y => score_lt (pv_score x) (pv_score y))
               (map preview_select (preview_join item_cooc (db_item_frequency db)))))
  end.
End Preview.

(** ** Further quantities the statements speak about *)

(** [x] stands somewhere before [y] in [l]. *)
Definition precedes {A : Type} (x y : A) (l : list A) : Prop :=
  exists m1 m2 m3, l = m1 ++ x :: m2 ++ y :: m3.

(** The factor indices [emebedding[factor - 1]] accepts on a list of
    [embedding_size] elements: those with [-len <= factor - 1 < len]. *)
Definition factor_in_range (e : factor_weight) : Prop :=
  - Z.of_nat embedding_size < factor e <= Z.of_nat embedding_size.

(** The position a factor index addresses, counted from the end when
    [factor - 1] is negative. *)
Definition factor_position (e : factor_weight) : nat :=
  if 1 <=? factor e then Z.to_nat (factor e - 1)
  else Z.to_nat (Z.of_nat embedding_size + (factor e - 1)).

(** The weights an item sends to position [p], wrapped indices included. *)
Definition weights_to (results : list weights_row) (item : string) (p : nat)
  : list float :=
  map weight
    (filter (fun e => Nat.eqb (factor_position e) p)
       (flat_map factor_weights (embedding_pair results item))).

(** *** Example data for the procedure

    Items 1 and 2 in one group; a database with empty tables; and a database
    whose [item_cooc] has the PMI column. *)
Definition two_items_view : list item_group :=
  [ {| item_Id := 1; group_Id := 1 |}; {| item_Id := 2; group_Id := 1 |} ].

Definition empty_database : database float_expr :=
  {| db_valid_item_groups := []; db_item_frequency := [];
     db_item_cooc := WithoutPmi [] |}.

Definition two_items_with_pmi : database float_expr :=
  {| db_valid_item_groups := two_items_view;
     db_item_frequency :=
       [ {| freq_item_Id := 1; frequency := 1 |};
         {| freq_item_Id := 2; frequency := 1 |} ];
     db_item_cooc :=
       WithPmi
         [ {| pmi_item1_Id := 1; pmi_item2_Id := 2; pmi_cooc := 1;
              pmi := Some (pmi_formula 1 1 1 2) |};
           {| pmi_item1_Id := 1; pmi_item2_Id := 1; pmi_cooc := 1;
              pmi := Some (pmi_formula 1 1 1 2) |};
           {| pmi_item1_Id := 2; pmi_item2_Id := 2; pmi_cooc := 1;
              pmi := Some (pmi_formula 1 1 1 2) |} ] |}.

(** *** A second example for the explorer

    Four songs; the first three have the same embedding. *)
Definition four_embeddings : list (string * list float) :=
  [ ("a", unit_vector 0); ("b", unit_vector 0); ("c", unit_vector 0);
    ("d", unit_vector 1) ]%string.

Definition four_songs : list (string * string) :=
  [ ("a", "Song A"); ("b", "Song B"); ("c", "Song C"); ("d", "Song D") ]%string.

(** The entry dropped from a ranking is the one of the tying item. *)
Definition tying_item_is_dropped {S : Type} (ranked : list (string * S))
  (tying : string * S) : Prop :=
  hd_error ranked = Some tying.

(** * Facts about the relational operators *)

Section RelationalFacts.
Context {A K : Type} (K_dec : forall x y : K, {x = y} + {x <> y}).

Lemma key_eqb_true (x y : K) : key_eqb K_dec x y = true <-> x = y.
Proof. unfold key_eqb. destruct (K_dec x y); split; congruence. Qed.

Lemma key_eqb_false (x y : K) : key_eqb K_dec x y = false <-> x <> y.
Proof. unfold key_eqb. destruct (K_dec x y); split; congruence. Qed.

Lemma key_eqb_refl (x : K) : key_eqb K_dec x x = true.
Proof. now apply key_eqb_true. Qed.

Lemma IN_true (x : K) (l : list K) : IN K_dec x l = true <-> In x l.
Proof.
  unfold IN. rewrite existsb_exists. split.
  - intros (y & Hy & E). apply key_eqb_true in E. now subst.
  - intros Hx. exists x. split; [assumption | apply key_eqb_refl].
Qed.

Lemma In_distinct (x : K) (l : list K) : In x (distinct K_dec l) <-> In x l.
Proof.
  induction l as [|y t IH]; simpl; [tauto|].
  rewrite filter_In, IH, negb_true_iff, key_eqb_false.
  destruct (K_dec y x); [subst|]; tauto.
Qed.

Lemma NoDup_distinct (l : list K) : NoDup (distinct K_dec l).
Proof.
  induction l as [|y t IH]; simpl; constructor.
  - rewrite filter_In, negb_true_iff, key_eqb_false. tauto.
  - now apply NoDup_filter.
Qed.

Lemma In_GROUP_BY (key : A -> K) (rows : list A) (k : K) (g : list A) :
  In (k, g) (GROUP_BY K_dec key rows)
  <-> In k (map key rows) /\ g = group_rows K_dec key rows k.
Proof.
  unfold GROUP_BY. rewrite in_map_iff. split.
  - intros (k' & E & Hk). inversion E; subst. now rewrite <- In_distinct.
  - intros (Hk & ->). exists k. now rewrite In_distinct.
Qed.

Lemma GROUP_BY_keys (key : A -> K) (rows : list A) :
  map fst (GROUP_BY K_dec key rows) = distinct K_dec (map key rows).
Proof. unfold GROUP_BY. rewrite map_map. simpl. apply map_id. Qed.

Lemma group_rows_nonempty (key : A -> K) (rows : list A) (k : K) :
  In k (map key rows) <-> (0 < List.length (group_rows K_dec key rows k))%nat.
Proof.
  unfold group_rows. induction rows as [|r t IH]; simpl.
  - split; [tauto | lia].
  - destruct (key_eqb K_dec (key r) k) eqn:E; simpl.
    + apply key_eqb_true in E. split; [lia | auto].
    + apply key_eqb_false in E. rewrite <- IH. tauto.
Qed.
End RelationalFacts.

Lemma COUNT_positive {A : Type} (g : list A) : (0 < List.length g)%nat <-> 0 < COUNT g.
Proof. unfold COUNT. lia. Qed.

Lemma item_count_positive (rows : list item_group) (i : Z) :
  0 < item_count rows i <-> In i (map item_Id rows).
Proof.
  unfold item_count. rewrite <- COUNT_positive. symmetry. apply group_rows_nonempty.
Qed.

(** ** Step 1: the valid items, the valid groups and the restriction *)

Lemma In_valid_items (vw : list item_group) (m i c : Z) :
  In (i, c) (valid_items vw m)
  <-> In i (map item_Id vw) /\ c = item_count vw i /\ m <= c.
Proof.
  unfold valid_items. rewrite filter_In, in_map_iff. simpl. rewrite Z.leb_le. split.
  - intros [((k & g) & E & Hg) Hm]. simpl in E. inversion E; subst.
    apply In_GROUP_BY in Hg as [Hk ->]. auto.
  - intros (Hi & -> & Hm). split; [|assumption].
    exists (i, group_rows Z.eq_dec item_Id vw i). split; [reflexivity|].
    now apply In_GROUP_BY.
Qed.

Lemma valid_item_iff (vw : list item_group) (m i : Z) :
  In i (map fst (valid_items vw m))
  <-> In i (map item_Id vw) /\ m <= item_count vw i.
Proof.
  rewrite in_map_iff. split.
  - intros ((i' & c) & E & Hin). simpl in E. subst.
    apply In_valid_items in Hin as (? & -> & ?). auto.
  - intros (Hi & Hm). exists (i, item_count vw i). split; [reflexivity|].
    apply In_valid_items. auto.
Qed.

Lemma filter_filter {A : Type} (p q : A -> bool) (l : list A) :
  filter p (filter q l) = filter (fun x => p x && q x) l.
Proof.
  induction l as [|x t IH]; simpl; [reflexivity|].
  destruct (q x); simpl; rewrite ?andb_true_r, ?andb_false_r;
    [destruct (p x)|]; now rewrite IH.
Qed.

Lemma valid_group_iff (vw : list item_group) (m M g : Z) :
  In g (map fst (valid_groups vw m M))
  <-> 2 <= group_size_among_valid vw m g <= M.
Proof.
  assert (Hsize : forall g',
    COUNT (group_rows Z.eq_dec group_Id
             (filter (fun r => IN Z.eq_dec (item_Id r) (map fst (valid_items vw m))) vw) g')
    = group_size_among_valid vw m g').
  { intros g'. unfold group_size_among_valid, group_rows. rewrite filter_filter.
    f_equal. apply filter_ext_in. intros r Hr. f_equal.
    - unfold key_eqb. destruct (Z.eq_dec (group_Id r) g'); symmetry;
        [now apply Z.eqb_eq | now apply Z.eqb_neq].
    - apply eq_true_iff_eq. rewrite IN_true, valid_item_iff, Z.leb_le.
      split; [tauto|]. intros Hm. split; [now apply in_map | assumption]. }
  unfold valid_groups. rewrite in_map_iff. split.
  - intros ((g' & c) & E & Hin). simpl in E. subst g'.
    apply filter_In in Hin as [Hin Hc]. simpl in Hc.
    apply in_map_iff in Hin as ((k & rows) & E & Hg). simpl in E. inversion E; subst.
    apply In_GROUP_BY in Hg as [_ ->]. rewrite Hsize in Hc.
    apply andb_true_iff in Hc as [H2 HM]. lia.
  - intros [H2 HM]. exists (g, group_size_among_valid vw m g). split; [reflexivity|].
    apply filter_In. simpl. split; [|apply andb_true_iff; lia].
    apply in_map_iff.
    exists (g, group_rows Z.eq_dec group_Id
                 (filter (fun r => IN Z.eq_dec (item_Id r) (map fst (valid_items vw m))) vw) g).
    simpl. rewrite Hsize. split; [reflexivity|].
    apply In_GROUP_BY. split; [|reflexivity].
    apply (group_rows_nonempty Z.eq_dec). apply COUNT_positive. rewrite Hsize. lia.
Qed.

(** C2 (as amended).  A row of the view is kept in [valid_item_groups]
    exactly when its item has frequency at least [min_item_frequency] in the
    unfiltered view and its group has between 2 and [max_group_size] rows
    among the rows of such items: the item filter is computed on the
    unfiltered relation, the group filter on the relation already restricted
    to the valid items. *)
Theorem valid_item_groups_filters (vw : list item_group) (m M : Z) (r : item_group) :
  In r (valid_item_groups vw m M)
  <-> In r vw
      /\ m <= item_count vw (item_Id r)
      /\ 2 <= group_size_among_valid vw m (group_Id r) <= M.
Proof.
  unfold valid_item_groups.
  rewrite filter_In, andb_true_iff, !IN_true, valid_item_iff, valid_group_iff.
  split; [tauto|]. intros (Hr & Hm & Hg). repeat split; try tauto.
  now apply in_map.
Qed.

(** C2 (as stated): both filters computed on the unfiltered relation.  With
    item 1 in groups 1 and 2 and item 2 in group 1 only, and a minimum
    frequency of 2, group 1 has two rows in the view but a single row of a
    valid item: the procedure keeps nothing, the independent filters keep
    the row of item 1 in group 1. *)
Lemma valid_item_groups_not_independent :
  valid_item_groups
    [ {| item_Id := 1; group_Id := 1 |}; {| item_Id := 2; group_Id := 1 |};
      {| item_Id := 1; group_Id := 2 |} ] 2 10
  = []
  /\ valid_item_groups_independent
       [ {| item_Id := 1; group_Id := 1 |}; {| item_Id := 2; group_Id := 1 |};
         {| item_Id := 1; group_Id := 2 |} ] 2 10
     = [ {| item_Id := 1; group_Id := 1 |} ].
Proof. split; reflexivity. Qed.

(** ** Step 2: the pairwise table *)

Lemma In_cooc_join (vig : list item_group) (r : cooc_row) :
  In r (cooc_join vig)
  <-> exists a b, In a vig /\ In b vig /\ group_Id a = group_Id b
                  /\ item_Id a < item_Id b
                  /\ r = {| item1_Id := item_Id a; item2_Id := item_Id b; cooc := 1 |}.
Proof.
  unfold cooc_join. rewrite in_flat_map. split.
  - intros (a & Ha & Hr). apply in_map_iff in Hr as (b & <- & Hb).
    apply filter_In in Hb as [Hb Hc]. apply andb_true_iff in Hc as [Hg Hlt].
    exists a, b. rewrite Z.eqb_eq in Hg. rewrite Z.ltb_lt in Hlt. auto.
  - intros (a & b & Ha & Hb & Hg & Hlt & ->). exists a. split; [assumption|].
    apply in_map_iff. exists b. split; [reflexivity|].
    apply filter_In. split; [assumption|].
    apply andb_true_iff. now rewrite Z.eqb_eq, Z.ltb_lt.
Qed.

Lemma SUM_of_ones (l : list cooc_row) :
  (forall r, In r l -> cooc r = 1) -> SUM (map cooc l) = COUNT l.
Proof.
  unfold COUNT. induction l as [|x t IH]; intros Hall; [reflexivity|].
  cbn [map SUM fold_right List.length]. fold (SUM (map cooc t)).
  rewrite IH by (intros; apply Hall; simpl; auto).
  rewrite (Hall x) by (simpl; auto). lia.
Qed.

(** The count of a pair is the number of rows the join produces for it. *)
Lemma In_item_cooc_pairwise (vig : list item_group) (r : cooc_row) :
  In r (item_cooc_pairwise vig)
  <-> In (pair_key r) (map pair_key (cooc_join vig))
      /\ cooc r = COUNT (group_rows pair_dec pair_key (cooc_join vig) (pair_key r)).
Proof.
  assert (Hsum : forall k,
    SUM (map cooc (group_rows pair_dec pair_key (cooc_join vig) k))
    = COUNT (group_rows pair_dec pair_key (cooc_join vig) k)).
  { intros k. apply SUM_of_ones. intros x Hx. apply filter_In in Hx as [Hx _].
    apply In_cooc_join in Hx as (a & b & _ & _ & _ & _ & ->). reflexivity. }
  unfold item_cooc_pairwise. rewrite in_map_iff. split.
  - intros (([k1 k2] & g) & <- & Hg). apply In_GROUP_BY in Hg as [Hk ->].
    unfold pair_key at 1 3. simpl. rewrite Hsum. auto.
  - intros [Hk Hc]. exists (pair_key r, group_rows pair_dec pair_key (cooc_join vig) (pair_key r)).
    split; [|now apply In_GROUP_BY].
    cbn [fst snd]. rewrite Hsum, <- Hc. destruct r. reflexivity.
Qed.

Lemma item_cooc_pairwise_row (vig : list item_group) (r : cooc_row) :
  In r (item_cooc_pairwise vig) ->
  item1_Id r < item2_Id r /\ 0 < cooc r
  /\ In (item1_Id r) (map item_Id vig) /\ In (item2_Id r) (map item_Id vig).
Proof.
  intros Hr. apply In_item_cooc_pairwise in Hr as [Hk Hc].
  assert (Hpos : 0 < cooc r).
  { rewrite Hc. apply COUNT_positive. now apply group_rows_nonempty. }
  apply in_map_iff in Hk as (x & Hx & Hin).
  apply In_cooc_join in Hin as (a & b & Ha & Hb & _ & Hlt & ->).
  unfold pair_key in Hx. simpl in Hx. inversion Hx as [[H1 H2]].
  repeat split; try assumption; now apply in_map.
Qed.

(** ** Step 3: frequencies and self pairs *)

Lemma In_item_frequency (vig : list item_group) (f : frequency_row) :
  In f (item_frequency vig)
  <-> In (freq_item_Id f) (map item_Id vig)
      /\ frequency f = item_count vig (freq_item_Id f).
Proof.
  unfold item_frequency, item_count. rewrite in_map_iff. split.
  - intros ((k & g) & <- & Hg). apply In_GROUP_BY in Hg as [Hk ->]. auto.
  - intros [Hi Hc]. exists (freq_item_Id f, group_rows Z.eq_dec item_Id vig (freq_item_Id f)).
    split; [|now apply In_GROUP_BY].
    simpl. rewrite <- Hc. destruct f. reflexivity.
Qed.

Lemma item_frequency_positive (vig : list item_group) (f : frequency_row) :
  In f (item_frequency vig) -> 0 < frequency f.
Proof.
  intros Hf. apply In_item_frequency in Hf as [Hi ->]. now apply item_count_positive.
Qed.

Lemma In_item_cooc_with_self (pairs : list cooc_row) (freqs : list frequency_row)
  (r : cooc_row) :
  In r (item_cooc_with_self pairs freqs)
  <-> In r pairs
      \/ (item1_Id r = item2_Id r
          /\ In {| freq_item_Id := item1_Id r; frequency := cooc r |} freqs).
Proof.
  unfold item_cooc_with_self. rewrite in_app_iff, in_map_iff. split.
  - intros [Hr | (f & <- & Hf)]; [now left | right]. simpl. destruct f. auto.
  - intros [Hr | [E Hf]]; [now left | right].
    exists {| freq_item_Id := item1_Id r; frequency := cooc r |}.
    split; [|assumption]. destruct r. simpl in *. now subst.
Qed.

Lemma item_count_after_filters (vw : list item_group) (m M i : Z) :
  item_count (valid_item_groups vw m M) i = filtered_frequency vw m M i.
Proof.
  unfold item_count, filtered_frequency, group_rows, valid_item_groups.
  rewrite filter_filter. f_equal. apply filter_ext_in. intros r Hr.
  destruct (Z.eq_dec (item_Id r) i) as [E | E].
  - rewrite (proj2 (key_eqb_true Z.eq_dec _ _) E), (proj2 (Z.eqb_eq _ _) E). simpl.
    f_equal.
    + apply eq_true_iff_eq. rewrite IN_true, valid_item_iff, Z.leb_le, E.
      split; [tauto|]. intros Hm. split; [|assumption].
      rewrite <- E. now apply in_map.
    + apply eq_true_iff_eq.
      rewrite IN_true, valid_group_iff, andb_true_iff, !Z.leb_le. tauto.
  - rewrite (proj2 (key_eqb_false Z.eq_dec _ _) E), (proj2 (Z.eqb_neq _ _) E).
    reflexivity.
Qed.

(** C5.  In the table after the self pairs are appended, the row
    [(i, i, c)] is present exactly when [c] is positive and is the number of
    rows of [i] in the view that pass the restriction: [i] has frequency at
    least [min_item_frequency] in the view and the row lies in a group with
    between 2 and [max_group_size] rows of such items.  That number is not
    the frequency in the view: item 1, in group 1 with item 2 and alone in
    group 2, gets the self pair (1, 1, 1) while it has two rows in the
    view. *)
Theorem self_pair_count_is_filtered_frequency :
  (forall (vw : list item_group) (m M i c : Z),
      In {| item1_Id := i; item2_Id := i; cooc := c |}
         (item_cooc_with_self (item_cooc_pairwise (valid_item_groups vw m M))
            (item_frequency (valid_item_groups vw m M)))
      <-> c = filtered_frequency vw m M i /\ 0 < c)
  /\ exists (vw : list item_group) (m M i : Z),
       In {| item1_Id := i; item2_Id := i; cooc := filtered_frequency vw m M i |}
          (item_cooc_with_self (item_cooc_pairwise (valid_item_groups vw m M))
             (item_frequency (valid_item_groups vw m M)))
       /\ filtered_frequency vw m M i < item_count vw i.
Proof.
  split.
  - intros vw m M i c. rewrite In_item_cooc_with_self, <- item_count_after_filters.
    simpl. split.
    + intros [Hr | [_ Hf]].
      * apply item_cooc_pairwise_row in Hr as [Hlt _]. simpl in Hlt. lia.
      * pose proof (item_frequency_positive _ _ Hf) as Hpos.
        apply In_item_frequency in Hf as [_ Hc]. simpl in *. auto.
    + intros [-> Hpos]. right. split; [reflexivity|].
      apply In_item_frequency. simpl. split; [|reflexivity].
      now apply item_count_positive.
  - exists [ {| item_Id := 1; group_Id := 1 |}; {| item_Id := 2; group_Id := 1 |};
             {| item_Id := 1; group_Id := 2 |} ], 1, 10, 1.
    vm_compute. split; [auto | reflexivity].
Qed.

(** The two frequencies do differ: item 1 is in group 1 with item 2 and alone
    in group 2; group 2 is not valid, so the self pair of item 1 carries 1
    while item 1 has two rows in the view. *)
Example self_pair_count_differs_from_view_frequency :
  let vw := [ {| item_Id := 1; group_Id := 1 |}; {| item_Id := 2; group_Id := 1 |};
              {| item_Id := 1; group_Id := 2 |} ] in
  In {| item1_Id := 1; item2_Id := 1; cooc := 1 |}
     (item_cooc_with_self (item_cooc_pairwise (valid_item_groups vw 1 10))
        (item_frequency (valid_item_groups vw 1 10)))
  /\ item_count vw 1 = 2.
Proof. vm_compute. auto. Qed.

(** ** Counting the rows of the join *)

Section Counting.
Context {A B : Type}.

Lemma filter_map_commute (p : B -> bool) (g : A -> B) (l : list A) :
  filter p (map g l) = map g (filter (fun x => p (g x)) l).
Proof.
  induction l as [|x t IH]; simpl; [reflexivity|].
  destruct (p (g x)); simpl; now rewrite IH.
Qed.

Lemma length_filter_flat_map (p : B -> bool) (f : A -> list B) (l : list A) :
  List.length (filter p (flat_map f l))
  = fold_right (fun a n => (List.length (filter p (f a)) + n)%nat) 0%nat l.
Proof.
  induction l as [|x t IH]; simpl; [reflexivity|].
  now rewrite filter_app, length_app, IH.
Qed.

Lemma length_filter_sum (q : A -> bool) (l : list A) :
  List.length (filter q l)
  = fold_right (fun a n => ((if q a then 1 else 0) + n)%nat) 0%nat l.
Proof.
  induction l as [|x t IH]; simpl; [reflexivity|].
  destruct (q x); simpl; now rewrite IH.
Qed.

Lemma fold_right_ext_in (f g : A -> nat -> nat) (l : list A) (n : nat) :
  (forall a k, In a l -> f a k = g a k) -> fold_right f n l = fold_right g n l.
Proof.
  induction l as [|x t IH]; intros Hfg; simpl; [reflexivity|].
  rewrite IH by (intros; apply Hfg; simpl; auto). apply Hfg. simpl. auto.
Qed.

Lemma NoDup_map_fst_filter (p : A * B -> bool) (l : list (A * B)) :
  NoDup (map fst l) -> NoDup (map fst (filter p l)).
Proof.
  induction l as [|x t IH]; simpl; intros Hnd; [constructor|].
  inversion Hnd as [|? ? Hx Ht]; subst. destruct (p x); simpl; [|auto].
  constructor; [|auto]. intros Hin. apply Hx.
  apply in_map_iff in Hin as (y & E & Hy). apply filter_In in Hy as [Hy _].
  rewrite <- E. now apply in_map.
Qed.
End Counting.

Lemma length_filter_eq_count_occ {A : Type} (dec : forall x y : A, {x = y} + {x <> y})
  (p : A -> bool) (x : A) (l : list A) :
  (forall y, p y = true <-> y = x) ->
  List.length (filter p l) = count_occ dec l x.
Proof.
  intros Hp. induction l as [|y t IH]; simpl; [reflexivity|].
  destruct (dec y x) as [E | E].
  - apply Hp in E. rewrite E. simpl. now rewrite IH.
  - destruct (p y) eqn:Ey; [apply Hp in Ey; contradiction | assumption].
Qed.

Lemma In_valid_item_groups (vw : list item_group) (m M : Z) (r : item_group) :
  In r (valid_item_groups vw m M)
  <-> In r vw /\ In (item_Id r) (map fst (valid_items vw m))
      /\ In (group_Id r) (map fst (valid_groups vw m M)).
Proof.
  unfold valid_item_groups. now rewrite filter_In, andb_true_iff, !IN_true.
Qed.

Lemma NoDup_valid_groups (vw : list item_group) (m M : Z) :
  NoDup (map fst (valid_groups vw m M)).
Proof.
  unfold valid_groups. apply NoDup_map_fst_filter.
  rewrite map_map. simpl.
  change (fun x : Z * list item_group => fst x) with (@fst Z (list item_group)).
  rewrite GROUP_BY_keys. apply NoDup_distinct.
Qed.

(** The stored count of a pair is the number of join rows for it, when there
    is any; otherwise the table has no row for the pair. *)
Lemma cooc_of_pairwise (vig : list item_group) (i1 i2 : Z) :
  cooc_of (item_cooc_pairwise vig) i1 i2
  = let n := COUNT (group_rows pair_dec pair_key (cooc_join vig) (i1, i2)) in
    if n =? 0 then None else Some n.
Proof.
  unfold cooc_of. cbv zeta.
  destruct (find _ (item_cooc_pairwise vig)) as [r|] eqn:Hfind; simpl.
  - apply find_some in Hfind as [Hr Hk]. apply key_eqb_true in Hk.
    apply In_item_cooc_pairwise in Hr as [Hin Hc]. rewrite Hk in Hin, Hc.
    apply (group_rows_nonempty pair_dec), COUNT_positive in Hin.
    rewrite <- Hc in *. destruct (cooc r =? 0) eqn:E; [lia | reflexivity].
  - destruct (_ =? 0) eqn:E; [reflexivity | exfalso]. apply Z.eqb_neq in E.
    assert (Hin : In (i1, i2) (map pair_key (cooc_join vig))).
    { apply (group_rows_nonempty pair_dec), COUNT_positive.
      unfold COUNT in *. lia. }
    pose (r := {| item1_Id := i1; item2_Id := i2;
                  cooc := COUNT (group_rows pair_dec pair_key (cooc_join vig) (i1, i2)) |}).
    assert (Hr : In r (item_cooc_pairwise vig)).
    { apply In_item_cooc_pairwise. split; assumption || reflexivity. }
    apply (find_none _ _ Hfind) in Hr. unfold r, pair_key in Hr. simpl in Hr.
    now rewrite key_eqb_refl in Hr.
Qed.

(** Without repeated rows, the join rows of the pair [(a, b)], [a < b], are
    as many as the rows of [a] whose group also holds [b]. *)
Lemma join_rows_of_pair (vig : list item_group) (a b : Z) :
  NoDup vig -> a < b ->
  List.length (group_rows pair_dec pair_key (cooc_join vig) (a, b))
  = List.length
      (filter (fun r => (item_Id r =? a)
                        && IN item_group_dec {| item_Id := b; group_Id := group_Id r |} vig)
         vig).
Proof.
  intros Hnd Hlt. unfold group_rows, cooc_join.
  rewrite length_filter_flat_map, length_filter_sum.
  apply fold_right_ext_in. intros x n Hx. f_equal.
  rewrite filter_map_commute, length_map, filter_filter.
  destruct (item_Id x =? a) eqn:Ex; simpl.
  - apply Z.eqb_eq in Ex.
    rewrite (length_filter_eq_count_occ item_group_dec _
               {| item_Id := b; group_Id := group_Id x |}).
    + destruct (IN item_group_dec _ vig) eqn:Ein.
      * apply IN_true in Ein. pose proof (proj1 (NoDup_count_occ item_group_dec vig) Hnd
                                          {| item_Id := b; group_Id := group_Id x |}).
        apply (count_occ_In item_group_dec) in Ein. lia.
      * apply count_occ_not_In. intros Hin. apply (IN_true item_group_dec) in Hin. congruence.
    + intros [yi yg]. unfold pair_key. simpl.
      rewrite !andb_true_iff, key_eqb_true, Z.eqb_eq, Z.ltb_lt. split.
      * intros (E & Eg & _). inversion E. now subst.
      * intros E. inversion E. subst. repeat split; congruence || lia.
  - apply Z.eqb_neq in Ex. rewrite (proj2 (length_zero_iff_nil _)); [reflexivity|].
    destruct (filter _ vig) as [|y t] eqn:Ef; [reflexivity | exfalso].
    assert (Hy : In y (filter
      (fun x0 => key_eqb pair_dec
                   (pair_key {| item1_Id := item_Id x; item2_Id := item_Id x0; cooc := 1 |})
                   (a, b)
                 && ((group_Id x =? group_Id x0) && (item_Id x <? item_Id x0))) vig))
      by (rewrite Ef; simpl; auto).
    apply filter_In in Hy as [_ Hy]. apply andb_true_iff in Hy as [Hy _].
    apply key_eqb_true in Hy. unfold pair_key in Hy. simpl in Hy. inversion Hy. contradiction.
Qed.

Lemma NoDup_valid_item_groups (vw : list item_group) (m M : Z) :
  NoDup vw -> NoDup (valid_item_groups vw m M).
Proof. intros Hnd. unfold valid_item_groups. now apply NoDup_filter. Qed.

(** Distinct rows of one item lie in distinct groups. *)
Lemma NoDup_groups_of_item (q : item_group -> bool) (a : Z) (l : list item_group) :
  NoDup l -> (forall r, q r = true -> item_Id r = a) ->
  NoDup (map group_Id (filter q l)).
Proof.
  intros Hnd Hq. induction Hnd as [|x t Hx Ht IH]; simpl; [constructor|].
  destruct (q x) eqn:E; simpl; [|assumption].
  constructor; [|assumption]. intros Hin.
  apply in_map_iff in Hin as (y & Eg & Hy). apply filter_In in Hy as [Hy Ey].
  apply Hq in E, Ey. apply Hx. destruct x, y. simpl in *. now subst.
Qed.

(** The rows of [a] whose group also holds [b] are as many as the valid
    groups that hold both. *)
Lemma rows_with_partner_count (vw : list item_group) (m M a b : Z) :
  NoDup vw ->
  In a (map fst (valid_items vw m)) -> In b (map fst (valid_items vw m)) ->
  List.length
    (filter (fun r => (item_Id r =? a)
                      && IN item_group_dec {| item_Id := b; group_Id := group_Id r |}
                           (valid_item_groups vw m M))
       (valid_item_groups vw m M))
  = List.length (shared_valid_groups vw m M a b).
Proof.
  intros Hnd Ha Hb. rewrite <- (length_map group_Id).
  apply Permutation_length, NoDup_Permutation.
  - apply NoDup_groups_of_item with (a := a).
    + now apply NoDup_valid_item_groups.
    + intros r Hq. apply andb_true_iff in Hq as [Hq _]. now apply Z.eqb_eq.
  - unfold shared_valid_groups. apply NoDup_filter, NoDup_valid_groups.
  - intros g. unfold shared_valid_groups.
    rewrite in_map_iff, filter_In, andb_true_iff, !IN_true. split.
    + intros (r & <- & Hr). apply filter_In in Hr as [Hr Hq].
      apply andb_true_iff in Hq as [Ea Hq]. apply Z.eqb_eq in Ea.
      apply IN_true in Hq. apply In_valid_item_groups in Hr as (Hr & _ & Hg).
      apply In_valid_item_groups in Hq as (Hq & _ & _). simpl in Hq.
      destruct r as [ri rg]. simpl in *. subst. auto.
    + intros (Hg & Hag & Hbg). exists {| item_Id := a; group_Id := g |}.
      split; [reflexivity|]. apply filter_In. simpl. rewrite Z.eqb_refl. simpl.
      rewrite IN_true, !In_valid_item_groups. simpl. auto.
Qed.

Lemma shared_valid_groups_sym (vw : list item_group) (m M a b : Z) :
  shared_valid_groups vw m M a b = shared_valid_groups vw m M b a.
Proof. unfold shared_valid_groups. apply filter_ext. intros g. apply andb_comm. Qed.

Lemma cooc_of_shared_groups (vw : list item_group) (m M a b : Z) :
  NoDup vw -> a < b ->
  In a (map fst (valid_items vw m)) -> In b (map fst (valid_items vw m)) ->
  cooc_of (item_cooc_pairwise (valid_item_groups vw m M)) a b
  = let k := COUNT (shared_valid_groups vw m M a b) in
    if k =? 0 then None else Some k.
Proof.
  intros Hnd Hlt Ha Hb. rewrite cooc_of_pairwise. unfold COUNT.
  rewrite join_rows_of_pair by (try apply NoDup_valid_item_groups; assumption).
  now rewrite rows_with_partner_count.
Qed.

(** C3.  The rows of the view being pairwise distinct, let [A] and [B] be
    two distinct valid items and [k] the number of valid groups that hold
    both.  After "Compute pairwise cooc" (before self pairs and negative
    samples) the table holds the count [k] for the pair
    [(min A B, max A B)]; when [k = 0] it has no row for the pair. *)
Theorem cooc_counts_shared_valid_groups (vw : list item_group) (m M A B : Z) :
  NoDup vw -> A <> B ->
  In A (map fst (valid_items vw m)) -> In B (map fst (valid_items vw m)) ->
  cooc_of (item_cooc_pairwise (valid_item_groups vw m M)) (Z.min A B) (Z.max A B)
  = let k := COUNT (shared_valid_groups vw m M A B) in
    if k =? 0 then None else Some k.
Proof.
  intros Hnd Hne HA HB. destruct (Z.lt_ge_cases A B) as [Hlt | Hge].
  - rewrite Z.min_l, Z.max_r by lia. now apply cooc_of_shared_groups.
  - rewrite Z.min_r, Z.max_l by lia. rewrite shared_valid_groups_sym.
    apply cooc_of_shared_groups; assumption || lia.
Qed.

Lemma cooc_counts_shared_valid_groups_witness :
  cooc_of
    (item_cooc_pairwise
       (valid_item_groups
          [ {| item_Id := 1; group_Id := 1 |}; {| item_Id := 2; group_Id := 1 |};
            {| item_Id := 3; group_Id := 1 |}; {| item_Id := 1; group_Id := 2 |};
            {| item_Id := 2; group_Id := 2 |} ] 1 10))
    1 2
  = Some 2.
Proof.
  apply (cooc_counts_shared_valid_groups
           [ {| item_Id := 1; group_Id := 1 |}; {| item_Id := 2; group_Id := 1 |};
             {| item_Id := 3; group_Id := 1 |}; {| item_Id := 1; group_Id := 2 |};
             {| item_Id := 2; group_Id := 2 |} ] 1 10 1 2).
  - repeat constructor; simpl; intuition discriminate.
  - discriminate.
  - vm_compute. auto.
  - vm_compute. auto.
Defined.

(** The scenario of the specification: items 1, 2, 3 in group 1 and items 1,
    2 in group 2, minimum frequency 1, maximum group size 10. *)
Example scenario_counts :
  let vig := valid_item_groups
               [ {| item_Id := 1; group_Id := 1 |}; {| item_Id := 2; group_Id := 1 |};
                 {| item_Id := 3; group_Id := 1 |}; {| item_Id := 1; group_Id := 2 |};
                 {| item_Id := 2; group_Id := 2 |} ] 1 10 in
  item_cooc_pairwise vig
  = [ {| item1_Id := 1; item2_Id := 2; cooc := 2 |};
      {| item1_Id := 1; item2_Id := 3; cooc := 1 |};
      {| item1_Id := 2; item2_Id := 3; cooc := 1 |} ]
  /\ item_frequency vig
     = [ {| freq_item_Id := 1; frequency := 2 |};
         {| freq_item_Id := 2; frequency := 2 |};
         {| freq_item_Id := 3; frequency := 1 |} ]
  /\ total_frequency (item_frequency vig) = Some 5.
Proof. repeat split. Qed.

(** Where the rows of the view repeat, the join counts every combination of
    copies: item 1 listed twice in the one group it shares with item 2 gives
    the pair the count 2. *)
Example repeated_rows_count_twice :
  let vw := [ {| item_Id := 1; group_Id := 1 |}; {| item_Id := 1; group_Id := 1 |};
              {| item_Id := 2; group_Id := 1 |} ] in
  cooc_of (item_cooc_pairwise (valid_item_groups vw 1 10)) 1 2 = Some 2
  /\ shared_valid_groups vw 1 10 1 2 = [ 1 ].
Proof. split; reflexivity. Qed.

(** * The procedure as a whole *)


Lemma mapM_succeeds {A B : Type} (f : A -> result B) (l : list A) :
  (forall x, In x l -> exists y, f x = Ok y) -> exists l', mapM f l = Ok l'.
Proof.
  induction l as [|x t IH]; simpl; intros Hall; [eauto|].
  destruct (Hall x) as [y ->]; [auto|].
  destruct IH as [ys ->]; [auto|]. simpl. eauto.
Qed.

(** [negative_samples] reads a column that [top_items] does not have. *)
Lemma negative_samples_fails (top : list Z) :
  negative_samples top = Error "Name item not found inside a".
Proof. reflexivity. Qed.

(** Had [negative_sample_size] a positive value, the block would stop at
    the column [negative_samples] cannot resolve. *)
Lemma negative_sampling_block_fails (n : Z) (tbl : list cooc_row)
  (freqs : list frequency_row) :
  0 < n ->
  item_cooc_with_negatives (Some n) tbl freqs = Error "Name item not found inside a".
Proof.
  intros Hn. unfold item_cooc_with_negatives.
  destruct (0 <? n) eqn:E; [|apply Z.ltb_ge in E; lia].
  now rewrite negative_samples_fails.
Qed.

Lemma SUM_positive (l : list Z) :
  l <> [] -> (forall x, In x l -> 0 < x) -> 0 < SUM l.
Proof.
  induction l as [|x t IH]; intros Hne Hall; [congruence|].
  unfold SUM. simpl. fold (SUM t).
  assert (0 < x) by (apply Hall; simpl; auto).
  destruct t as [|y t']; [simpl; lia|].
  assert (0 < SUM (y :: t')) by (apply IH; [discriminate | intros; apply Hall; simpl; auto]).
  lia.
Qed.

(** The total is defined and positive as soon as one item has a frequency. *)
Lemma total_frequency_positive (vig : list item_group) (f : frequency_row) :
  In f (item_frequency vig) ->
  total_frequency (item_frequency vig) = Some (SUM (map frequency (item_frequency vig)))
  /\ 0 < SUM (map frequency (item_frequency vig)).
Proof.
  intros Hf. unfold total_frequency, SUM_scalar.
  destruct (item_frequency vig) as [|f0 t] eqn:E; [destruct Hf|]. rewrite <- E. split.
  - rewrite E. reflexivity.
  - apply SUM_positive.
    + rewrite E. discriminate.
    + intros x Hx. apply in_map_iff in Hx as (f' & <- & Hf').
      now apply item_frequency_positive in Hf'.
Qed.

Section PmiFacts.
Context {F : Type} `{Float64 F}.

Lemma pmi_value_positive (c f1 f2 t : Z) :
  0 < c -> 0 < f1 -> 0 < f2 -> 0 < t ->
  pmi_value c f1 f2 (Some t) = Ok (Some (pmi_formula c f1 f2 t)).
Proof.
  intros Hc H1 H2 Ht. unfold pmi_value, LOG.
  destruct (c <=? 0) eqn:Ec; [apply Z.leb_le in Ec; lia|].
  destruct (f1 <=? 0) eqn:E1; [apply Z.leb_le in E1; lia|].
  destruct (f2 <=? 0) eqn:E2; [apply Z.leb_le in E2; lia|].
  destruct (t <=? 0) eqn:Et; [apply Z.leb_le in Et; lia|].
  reflexivity.
Qed.

Lemma In_pmi_join (tbl : list cooc_row) (freqs : list frequency_row)
  (a : cooc_row) (b c : frequency_row) :
  In (a, b, c) (pmi_join tbl freqs)
  <-> In a tbl /\ In b freqs /\ In c freqs
      /\ item1_Id a = freq_item_Id b /\ item2_Id a = freq_item_Id c.
Proof.
  unfold pmi_join. rewrite in_flat_map. split.
  - intros (a' & Ha & Hin). apply in_flat_map in Hin as (b' & Hb & Hin).
    apply in_map_iff in Hin as (c' & E & Hc). inversion E; subst.
    apply filter_In in Hb as [Hb Eb]. apply filter_In in Hc as [Hc Ec].
    rewrite Z.eqb_eq in Eb, Ec. auto.
  - intros (Ha & Hb & Hc & Eb & Ec). exists a. split; [assumption|].
    apply in_flat_map. exists b. split; [apply filter_In; now rewrite Z.eqb_eq|].
    apply in_map_iff. exists c. split; [reflexivity|].
    apply filter_In. now rewrite Z.eqb_eq.
Qed.

(** Every row of the table before "Compute PMI" has a positive count, is
    ordered or a self pair, and its items have a frequency. *)
Lemma item_cooc_with_self_row (vig : list item_group) (a : cooc_row) :
  In a (item_cooc_with_self (item_cooc_pairwise vig) (item_frequency vig)) ->
  0 < cooc a
  /\ (item1_Id a < item2_Id a
      \/ (item1_Id a = item2_Id a /\ cooc a = item_count vig (item1_Id a)))
  /\ In (item1_Id a) (map item_Id vig) /\ In (item2_Id a) (map item_Id vig).
Proof.
  intros Ha. apply In_item_cooc_with_self in Ha as [Ha | [E Hf]].
  - apply item_cooc_pairwise_row in Ha as (? & ? & ? & ?). auto.
  - pose proof (item_frequency_positive _ _ Hf) as Hpos.
    apply In_item_frequency in Hf as [Hi Hc]. simpl in *.
    rewrite <- E. auto 6.
Qed.

(** Every call stops at [IF negative_sample_size > 0]: nothing declares the
    name.  The statements before it have run; the tables are those they
    made, whatever the database held. *)
Lemma sp_ComputePMI_leaves (vw : list item_group) (m M : Z) (db : database F) :
  sp_ComputePMI vw m M db
  = ({| db_valid_item_groups := valid_item_groups vw m M;
        db_item_frequency := item_frequency (valid_item_groups vw m M);
        db_item_cooc :=
          WithoutPmi
            (item_cooc_with_self (item_cooc_pairwise (valid_item_groups vw m M))
               (item_frequency (valid_item_groups vw m M))) |},
     Error "Unrecognized name: negative_sample_size").
Proof. reflexivity. Qed.


(** "Compute PMI", run on the tables the self-pair statement leaves, meets
    no NULL and no LOG of a non-positive number. *)
Lemma pmi_statement_succeeds (vig : list item_group) :
  exists out : list (pmi_row F),
    item_cooc_pmi (item_cooc_with_self (item_cooc_pairwise vig) (item_frequency vig))
      (item_frequency vig) (total_frequency (item_frequency vig)) = Ok out.
Proof.
  unfold item_cooc_pmi. apply mapM_succeeds.
  intros ((a & b) & c) Hin.
  apply In_pmi_join in Hin as (Ha & Hb & Hc & _).
  destruct (total_frequency_positive _ _ Hb) as [Ht Htpos].
  pose proof (item_frequency_positive _ _ Hb) as Hbpos.
  pose proof (item_frequency_positive _ _ Hc) as Hcpos.
  destruct (item_cooc_with_self_row _ _ Ha) as (Hapos & _).
  rewrite Ht, (pmi_value_positive _ _ _ _ Hapos Hbpos Hcpos Htpos). simpl. eauto.
Qed.
End PmiFacts.

(** C1 (as amended).  Every row of the co-occurrence table that a call of
    [sp_ComputePMI] leaves (the table after the self pairs are appended) has
    [item1_Id <= item2_Id]; the rows with equal items are the self pairs,
    whose count is the item's frequency in [valid_item_groups]. *)
Theorem item_cooc_weakly_ordered {F : Type} `{Float64 F}
  (vw : list item_group) (m M : Z) (db : database F) (r : cooc_row) :
  In r (cooc_columns (db_item_cooc (fst (sp_ComputePMI vw m M db)))) ->
  item1_Id r <= item2_Id r
  /\ (item1_Id r = item2_Id r ->
      cooc r = item_count (db_valid_item_groups (fst (sp_ComputePMI vw m M db)))
                 (item1_Id r)).
Proof.
  rewrite sp_ComputePMI_leaves. simpl. intros Hr.
  apply item_cooc_with_self_row in Hr as (_ & [Hlt | [Heq Hc]] & _).
  - split; [lia | intros; lia].
  - split; [lia | auto].
Qed.

Lemma item_cooc_weakly_ordered_witness :
  1 <= 1 /\ (1 = 1 -> 1 = item_count two_items_view 1).
Proof.
  apply (item_cooc_weakly_ordered two_items_view 1 10 empty_database
           {| item1_Id := 1; item2_Id := 1; cooc := 1 |}).
  simpl. auto.
Defined.

(** C1 (as stated): strict ordering of every row.  With items 1 and 2 in one
    group, the table the call leaves holds the self pairs (1, 1) and
    (2, 2). *)
Lemma self_pairs_not_strictly_ordered :
  cooc_columns (db_item_cooc (fst (sp_ComputePMI two_items_view 1 10 empty_database)))
  = [ {| item1_Id := 1; item2_Id := 2; cooc := 1 |};
      {| item1_Id := 1; item2_Id := 1; cooc := 1 |};
      {| item1_Id := 2; item2_Id := 2; cooc := 1 |} ]
  /\ ~ strictly_ordered
         (cooc_columns
            (db_item_cooc (fst (sp_ComputePMI two_items_view 1 10 empty_database)))).
Proof.
  split; [reflexivity|]. intros Hall.
  assert (Hlt : 1 < 1);
    [|lia].
  apply (Hall {| item1_Id := 1; item2_Id := 1; cooc := 1 |}). simpl. auto.
Qed.



(** The run of the statement on the example: items 1 and 2 in one group. *)
Example pmi_statement_on_two_items :
  item_cooc_pmi (F := float_expr)
    (cooc_columns (db_item_cooc (fst (sp_ComputePMI two_items_view 1 10 empty_database))))
    (db_item_frequency (fst (sp_ComputePMI two_items_view 1 10 empty_database)))
    (total_frequency
       (db_item_frequency (fst (sp_ComputePMI two_items_view 1 10 empty_database))))
  = Ok (match db_item_cooc two_items_with_pmi with
        | WithPmi rows => rows
        | WithoutPmi _ => []
        end).
Proof. reflexivity. Qed.

(** ** Negative samples *)

Lemma fold_left_max_bounds (t : list Z) (x0 : Z) :
  x0 <= fold_left Z.max t x0 /\ forall y, In y t -> y <= fold_left Z.max t x0.
Proof.
  revert x0. induction t as [|x t IH]; intros x0; simpl.
  - split; [lia | tauto].
  - destruct (IH (Z.max x0 x)) as [H0 Ht]. split; [lia|].
    intros y [<- | Hy]; [lia | auto].
Qed.

Lemma MAX_upper_bound (l : list Z) (x : Z) : In x l -> x <= MAX l.
Proof.
  destruct l as [|x0 t]; [intros []|]. unfold MAX.
  destruct (fold_left_max_bounds t x0) as [H0 Ht].
  intros [<- | Hx]; auto.
Qed.

(** The MAX merge on its own: whatever rows are merged in, every row of the
    table finds its pair again with a count at least as large. *)
Lemma merge_max_never_decreases (tbl extra : list cooc_row) (r : cooc_row) :
  In r tbl ->
  exists r', In r' (merge_max (tbl ++ extra))
             /\ pair_key r' = pair_key r /\ cooc r <= cooc r'.
Proof.
  intros Hr.
  exists {| item1_Id := item1_Id r; item2_Id := item2_Id r;
            cooc := MAX (map cooc (group_rows pair_dec pair_key (tbl ++ extra) (pair_key r))) |}.
  split; [|split; [reflexivity|]].
  - unfold merge_max. apply in_map_iff.
    exists (pair_key r, group_rows pair_dec pair_key (tbl ++ extra) (pair_key r)).
    split; [reflexivity|]. apply In_GROUP_BY. split; [|reflexivity].
    apply in_map, in_or_app. now left.
  - simpl. apply MAX_upper_bound, in_map. unfold group_rows. apply filter_In.
    split; [apply in_or_app; now left | apply key_eqb_refl].
Qed.

(** C6 (the code at the failing input).  Every call of the procedure, as
    [CALL sp_ComputePMI(1, 10)], fails at [IF negative_sample_size > 0]: the
    header declares [min_item_frequency] and [max_group_size] only.  The
    co-occurrence table is left as the self-pair statement made it, nothing
    merged.  And were the name given a positive value, the block would fail
    one statement later: [negative_samples] selects [a.item] and [b.item],
    and [top_items] has the single column [item_Id]. *)
Theorem negative_sampling_cannot_run {F : Type} `{Float64 F}
  (vw : list item_group) (m M : Z) (db : database F) :
  snd (sp_ComputePMI vw m M db) = Error "Unrecognized name: negative_sample_size"
  /\ db_item_cooc (fst (sp_ComputePMI vw m M db))
     = WithoutPmi
         (item_cooc_with_self (item_cooc_pairwise (valid_item_groups vw m M))
            (item_frequency (valid_item_groups vw m M)))
  /\ forall (n : Z) (tbl : list cooc_row) (freqs : list frequency_row),
       0 < n ->
       item_cooc_with_negatives (Some n) tbl freqs
       = Error "Name item not found inside a".
Proof.
  rewrite sp_ComputePMI_leaves. split; [reflexivity|]. split; [reflexivity|].
  intros n tbl freqs Hn. now apply negative_sampling_block_fails.
Qed.

Lemma negative_sampling_cannot_run_witness :
  snd (sp_ComputePMI
         [ {| item_Id := 1; group_Id := 1 |}; {| item_Id := 2; group_Id := 1 |};
           {| item_Id := 3; group_Id := 1 |}; {| item_Id := 1; group_Id := 2 |};
           {| item_Id := 2; group_Id := 2 |} ] 1 10 empty_database)
  = Error "Unrecognized name: negative_sample_size"
  /\ item_cooc_with_negatives (Some 2) [] [] = Error "Name item not found inside a".
Proof.
  destruct (negative_sampling_cannot_run
              [ {| item_Id := 1; group_Id := 1 |}; {| item_Id := 2; group_Id := 1 |};
                {| item_Id := 3; group_Id := 1 |}; {| item_Id := 1; group_Id := 2 |};
                {| item_Id := 2; group_Id := 2 |} ] 1 10 empty_database)
    as (Hout & _ & Hblock).
  split; [exact Hout | apply Hblock; lia].
Defined.

(** ** Configuration values *)

Lemma valid_items_below_one (vw : list item_group) (m : Z) :
  m <= 1 -> valid_items vw m = valid_items vw 1.
Proof.
  intros Hm. unfold valid_items. apply filter_ext_in. intros [i c] Hin. simpl.
  apply in_map_iff in Hin as ((k & g) & E & Hg). inversion E; subst.
  apply In_GROUP_BY in Hg as [Hk ->].
  apply (group_rows_nonempty Z.eq_dec), COUNT_positive in Hk.
  destruct (Z.leb_spec m (COUNT (group_rows Z.eq_dec item_Id vw i)));
    destruct (Z.leb_spec 1 (COUNT (group_rows Z.eq_dec item_Id vw i)));
    reflexivity || lia.
Qed.

Lemma valid_item_groups_below_one (vw : list item_group) (m M : Z) :
  m <= 1 -> valid_item_groups vw m M = valid_item_groups vw 1 M.
Proof.
  intros Hm. unfold valid_item_groups, valid_groups.
  now rewrite (valid_items_below_one vw m Hm).
Qed.

Lemma valid_item_groups_max_below_two (vw : list item_group) (m M : Z) :
  M < 2 -> valid_item_groups vw m M = [].
Proof.
  intros HM. destruct (valid_item_groups vw m M) as [|r t] eqn:E; [reflexivity|].
  assert (Hr : In r (valid_item_groups vw m M)) by (rewrite E; simpl; auto).
  apply In_valid_item_groups in Hr as (_ & _ & Hg). apply valid_group_iff in Hg. lia.
Qed.

(** C9 (as amended).  Neither procedure checks its configuration.  Whatever
    [min_item_frequency] and [max_group_size] are, a call of [sp_ComputePMI]
    runs the filter, co-occurrence, frequency and self-pair statements with
    them and replaces the three tables; its outcome is the same for every
    configuration; a minimum frequency below 1 behaves as 1; a maximum group
    size below 2 leaves the tables empty.  [sp_TrainItemMatchingModel], given
    a table to train on, hands [dimensions], negative or not, to the trainer
    as [NUM_FACTORS]. *)
Theorem configuration_is_not_validated {F : Type} `{Float64 F}
  (vw : list item_group) (m M dimensions : Z) (db : database F)
  (rows : list (pmi_row F)) :
  fst (sp_ComputePMI vw m M db)
  = {| db_valid_item_groups := valid_item_groups vw m M;
       db_item_frequency := item_frequency (valid_item_groups vw m M);
       db_item_cooc :=
         WithoutPmi
           (item_cooc_with_self (item_cooc_pairwise (valid_item_groups vw m M))
              (item_frequency (valid_item_groups vw m M))) |}
  /\ (forall m' M', snd (sp_ComputePMI vw m M db) = snd (sp_ComputePMI vw m' M' db))
  /\ (m <= 1 -> sp_ComputePMI vw m M db = sp_ComputePMI vw 1 M db)
  /\ (M < 2 ->
      fst (sp_ComputePMI vw m M db)
      = {| db_valid_item_groups := []; db_item_frequency := [];
           db_item_cooc := WithoutPmi [] |})
  /\ exists request,
       sp_TrainItemMatchingModel dimensions (replace_item_cooc (WithPmi rows) db)
       = Ok request
       /\ NUM_FACTORS request = dimensions.
Proof.
  split; [now rewrite sp_ComputePMI_leaves|]. split; [|split; [|split]].
  - intros m' M'. now rewrite !sp_ComputePMI_leaves.
  - intros Hm. rewrite !sp_ComputePMI_leaves.
    now rewrite (valid_item_groups_below_one vw m M Hm).
  - intros HM. rewrite sp_ComputePMI_leaves. simpl.
    now rewrite (valid_item_groups_max_below_two vw m M HM).
  - eexists. split; reflexivity.
Qed.

Lemma configuration_is_not_validated_witness :
  sp_ComputePMI two_items_view 0 10 empty_database
  = sp_ComputePMI two_items_view 1 10 empty_database
  /\ fst (sp_ComputePMI two_items_view 0 1 empty_database) = empty_database
  /\ exists request,
       sp_TrainItemMatchingModel (-5) two_items_with_pmi = Ok request
       /\ NUM_FACTORS request = -5.
Proof.
  split; [|split].
  - apply (configuration_is_not_validated two_items_view 0 10 (-5) empty_database []).
    lia.
  - apply (configuration_is_not_validated two_items_view 0 1 (-5) empty_database []).
    lia.
  - apply (configuration_is_not_validated two_items_view 0 10 (-5) two_items_with_pmi
             (match db_item_cooc two_items_with_pmi with
              | WithPmi rows => rows
              | WithoutPmi _ => []
              end)).
Defined.

(** C9 (as stated): rejection at entry, before any processing.  The call
    with [min_item_frequency = 0] replaces [valid_item_groups] by the two
    rows of the view before it ends. *)
Lemma invalid_configuration_not_rejected :
  db_valid_item_groups (fst (sp_ComputePMI two_items_view 0 10 empty_database))
  = two_items_view
  /\ ~ rejects_invalid_configuration float_expr.
Proof.
  split; [reflexivity|]. intros Hrej.
  destruct (Hrej two_items_view 0 10 empty_database) as [Hsame _]; [lia|].
  apply (f_equal db_valid_item_groups) in Hsame. discriminate.
Qed.

(** * The embedding builder *)

Lemma foldM_app {A B : Type} (f : B -> A -> result B) (l1 l2 : list A) (b : B) :
  foldM f (l1 ++ l2) b = (b' <- foldM f l1 b ;; foldM f l2 b').
Proof.
  revert b. induction l1 as [|x t IH]; intros b; simpl; [reflexivity|].
  destruct (f b x); simpl; auto.
Qed.

(** The two nested loops visit the elements of all rows in sequence. *)
Lemma foldM_flat_map {A B C : Type} (f : B -> A -> result B) (g : C -> list A)
  (rows : list C) (b : B) :
  foldM (fun b' row => foldM f (g row) b') rows b = foldM f (flat_map g rows) b.
Proof.
  revert b. induction rows as [|r t IH]; intros b; simpl; [reflexivity|].
  rewrite foldM_app. destruct (foldM f (g r) b); simpl; auto.
Qed.

Lemma length_add_at (l : list float) (n : nat) (w : float) :
  List.length (add_at l n w) = List.length l.
Proof.
  revert n. induction l as [|x t IH]; intros [|n]; simpl; auto.
Qed.

Lemma nth_add_at (l : list float) (n p : nat) (w d : float) :
  (n < List.length l)%nat ->
  nth p (add_at l n w) d
  = if Nat.eqb p n then (nth p l d + w)%float else nth p l d.
Proof.
  revert n p. induction l as [|x t IH]; intros n p Hn; simpl in Hn; [lia|].
  destruct n as [|n], p as [|p]; simpl; try reflexivity.
  apply IH. lia.
Qed.

Lemma accumulate_in_range (v : list float) (e : factor_weight) :
  1 <= factor e <= Z.of_nat (List.length v) ->
  accumulate v e = Ok (add_at v (Z.to_nat (factor e - 1)) (weight e)).
Proof.
  intros Hf. unfold accumulate, py_index.
  destruct (0 <=? factor e - 1) eqn:E0; [|apply Z.leb_gt in E0; lia].
  destruct (factor e - 1 <? Z.of_nat (List.length v)) eqn:E1;
    [reflexivity | apply Z.ltb_ge in E1; lia].
Qed.

Lemma foldM_accumulate (es : list factor_weight) (v : list float) :
  (forall e, In e es -> 1 <= factor e <= Z.of_nat (List.length v)) ->
  exists v', foldM accumulate es v = Ok v'
    /\ List.length v' = List.length v
    /\ forall p, (p < List.length v)%nat ->
         nth p v' 0%float
         = fold_left PrimFloat.add
             (map weight (filter (fun e => factor e - 1 =? Z.of_nat p) es))
             (nth p v 0%float).
Proof.
  revert v. induction es as [|e t IH]; intros v Hall; simpl.
  - exists v. auto.
  - assert (He : 1 <= factor e <= Z.of_nat (List.length v)) by (apply Hall; simpl; auto).
    rewrite (accumulate_in_range v e He). simpl.
    destruct (IH (add_at v (Z.to_nat (factor e - 1)) (weight e))) as (v' & -> & Hlen & Hnth).
    { intros e' He'. rewrite length_add_at. apply Hall. simpl. auto. }
    rewrite length_add_at in Hlen, Hnth.
    exists v'. split; [reflexivity|]. split; [assumption|].
    intros p Hp. rewrite (Hnth p Hp), nth_add_at by lia.
    destruct (factor e - 1 =? Z.of_nat p) eqn:E.
    + apply Z.eqb_eq in E. replace (Nat.eqb p (Z.to_nat (factor e - 1))) with true
        by (symmetry; apply Nat.eqb_eq; lia). reflexivity.
    + apply Z.eqb_neq in E. replace (Nat.eqb p (Z.to_nat (factor e - 1))) with false
        by (symmetry; apply Nat.eqb_neq; lia). reflexivity.
Qed.

Lemma nth_repeat_zero (n p : nat) : nth p (repeat 0%float n) 0%float = 0%float.
Proof.
  revert p. induction n as [|n IH]; intros [|p]; simpl; auto.
Qed.

Lemma item_embedding_accumulates (results : list weights_row) (item : string) :
  (forall r e, In r results -> In e (factor_weights r) ->
               1 <= factor e <= Z.of_nat embedding_size) ->
  exists v, item_embedding results item = Ok v
    /\ List.length v = embedding_size
    /\ forall p, (p < embedding_size)%nat ->
         nth p v 0%float = fold_left PrimFloat.add (weights_at results item p) 0%float.
Proof.
  intros Hall. unfold item_embedding. rewrite foldM_flat_map.
  destruct (foldM_accumulate (flat_map factor_weights (embedding_pair results item))
              (repeat 0%float embedding_size)) as (v & Hv & Hlen & Hnth).
  - intros e He. rewrite repeat_length.
    apply in_flat_map in He as (r & Hr & He). apply filter_In in Hr as [Hr _]. eauto.
  - rewrite repeat_length in Hlen, Hnth. exists v. split; [assumption|]. split; [assumption|].
    intros p Hp. rewrite (Hnth p Hp), nth_repeat_zero. reflexivity.
Qed.

Lemma weights_at_of_item (results : list weights_row) (item : string) (p : nat) :
  weights_at results item p = weights_of_item results item p.
Proof.
  unfold weights_at, embedding_pair.
  induction results as [|row rest IH]; simpl; [reflexivity|].
  rewrite <- IH. destruct (string_dec (feature row) item) as [E | E].
  - rewrite (proj2 (key_eqb_true string_dec _ _) E), (proj2 (String.eqb_eq _ _) E).
    simpl. now rewrite filter_app, map_app.
  - rewrite (proj2 (key_eqb_false string_dec _ _) E), (proj2 (String.eqb_neq _ _) E).
    reflexivity.
Qed.

(** C7.  When every factor index lies between 1 and the vector length (100),
    [process_results] returns one entry per distinct item, in order of first
    appearance; the vector of an item has length 100 and its position [p] is
    the sum, started at 0.0 and taken in row order, of the weights with
    [factor - 1 = p] that the rows of that item hold, and of no other row.
    In particular the single row [{feature: "X", factor_weights: [{factor: 1,
    weight: 2.0}]}] yields the vector [2.0, 0, ..., 0]; and two rows of "X"
    around a row of "Y" give "X" the sum of its two weights and "Y" its
    own. *)
Theorem process_results_accumulates :
  (forall results : list weights_row,
      (forall r e, In r results -> In e (factor_weights r) ->
                   1 <= factor e <= Z.of_nat embedding_size) ->
      exists d, process_results results = Ok d
        /\ map fst d = distinct string_dec (map feature results)
        /\ forall item v, In (item, v) d ->
             List.length v = embedding_size
             /\ forall p, (p < embedding_size)%nat ->
                  nth p v 0%float
                  = fold_left PrimFloat.add (weights_of_item results item p) 0%float)
  /\ process_results
       [ {| feature := "X";
            factor_weights := [ {| factor := 1; weight := 2%float |} ] |} ]
     = Ok [ ("X"%string, 2%float :: repeat 0%float (embedding_size - 1)) ]
  /\ process_results
       [ {| feature := "X"; factor_weights := [ {| factor := 1; weight := 2%float |} ] |};
         {| feature := "Y"; factor_weights := [ {| factor := 3; weight := 1%float |} ] |};
         {| feature := "X"; factor_weights := [ {| factor := 1; weight := 4%float |} ] |} ]
     = Ok [ ("X"%string, 6%float :: repeat 0%float (embedding_size - 1));
            ("Y"%string,
             0%float :: 0%float :: 1%float :: repeat 0%float (embedding_size - 3)) ].
Proof.
  split; [|split; reflexivity].
  intros results Hall. unfold process_results.
  induction (distinct string_dec (map feature results)) as [|item items IH]; simpl.
  - exists []. split; [reflexivity|]. split; [reflexivity|]. intros ? ? [].
  - destruct (item_embedding_accumulates results item Hall) as (v & -> & Hlen & Hnth).
    destruct IH as (d & -> & Hkeys & Hd). simpl.
    exists ((item, v) :: d). split; [reflexivity|]. split; [simpl; now rewrite Hkeys|].
    intros item' v' [E | Hin]; [|eauto]. inversion E; subst.
    split; [assumption|]. intros p Hp.
    now rewrite (Hnth p Hp), weights_at_of_item.
Qed.

Lemma process_results_accumulates_witness :
  exists d,
    process_results
      [ {| feature := "X"; factor_weights := [ {| factor := 1; weight := 2%float |} ] |};
        {| feature := "Y"; factor_weights := [ {| factor := 3; weight := 1%float |} ] |};
        {| feature := "X"; factor_weights := [ {| factor := 1; weight := 4%float |} ] |} ]
    = Ok d
    /\ map fst d = [ "X"; "Y" ]%string
    /\ forall item v, In (item, v) d ->
         List.length v = embedding_size
         /\ forall p, (p < embedding_size)%nat ->
              nth p v 0%float
              = fold_left PrimFloat.add
                  (weights_of_item
                     [ {| feature := "X";
                          factor_weights := [ {| factor := 1; weight := 2%float |} ] |};
                       {| feature := "Y";
                          factor_weights := [ {| factor := 3; weight := 1%float |} ] |};
                       {| feature := "X";
                          factor_weights := [ {| factor := 1; weight := 4%float |} ] |} ]
                     item p) 0%float.
Proof.
  apply (proj1 process_results_accumulates
           [ {| feature := "X"; factor_weights := [ {| factor := 1; weight := 2%float |} ] |};
             {| feature := "Y"; factor_weights := [ {| factor := 3; weight := 1%float |} ] |};
             {| feature := "X"; factor_weights := [ {| factor := 1; weight := 4%float |} ] |} ]).
  intros r e Hr He. simpl in Hr.
  destruct Hr as [<- | [<- | [<- | []]]]; simpl in He;
    destruct He as [<- | []]; simpl; lia.
Defined.

(** * The stable descending sort *)

Section SortFacts.
Context {A : Type} (lt : A -> A -> bool).

Lemma insert_desc_perm (x : A) (l : list A) :
  Permutation (x :: l) (insert_desc lt x l).
Proof.
  induction l as [|y t IH]; simpl; [reflexivity|].
  destruct (lt x y); [|reflexivity].
  rewrite perm_swap. now apply perm_skip.
Qed.

Lemma sort_desc_perm (l : list A) : Permutation l (sort_desc lt l).
Proof.
  induction l as [|x t IH]; simpl; [constructor|].
  rewrite <- insert_desc_perm. now apply perm_skip.
Qed.

(** An element that nothing in the list exceeds goes to the front. *)
Lemma insert_desc_front (x : A) (l : list A) :
  (forall y, In y l -> lt x y = false) -> insert_desc lt x l = x :: l.
Proof.
  destruct l as [|y t]; intros Hall; simpl; [reflexivity|].
  now rewrite (Hall y) by (simpl; auto).
Qed.

(** The sort puts first the earliest element that exceeds all those before
    it and is exceeded by none after it. *)
Lemma sort_desc_head (pre post : list A) (d : A) :
  (forall x, In x pre -> lt x d = true) ->
  (forall y, In y post -> lt d y = false) ->
  exists rest, sort_desc lt (pre ++ d :: post) = d :: rest
               /\ Permutation rest (pre ++ post).
Proof.
  intros Hpre Hpost. induction pre as [|x pre IH]; simpl.
  - exists (sort_desc lt post). split; [|symmetry; apply sort_desc_perm].
    apply insert_desc_front. intros y Hy. apply Hpost.
    apply Permutation_in with (l := sort_desc lt post); [|assumption].
    symmetry. apply sort_desc_perm.
  - destruct IH as (rest & -> & Hperm); [intros; apply Hpre; simpl; auto|].
    simpl. rewrite (Hpre x) by (simpl; auto).
    exists (insert_desc lt x rest). split; [reflexivity|].
    rewrite <- insert_desc_perm. now apply perm_skip.
Qed.

(** The first element of a list that fails a test, if there is one. *)
Lemma first_failing (p : A -> bool) (l : list A) (j : A) :
  In j l -> p j = false ->
  exists pre d post, l = pre ++ d :: post
                     /\ (forall x, In x pre -> p x = true) /\ p d = false.
Proof.
  induction l as [|x t IH]; intros Hj Ej; [destruct Hj|].
  destruct (p x) eqn:Ex.
  - destruct Hj as [-> | Hj]; [congruence|].
    destruct (IH Hj Ej) as (pre & d & post & -> & Hpre & Ed).
    exists (x :: pre), d, post. split; [reflexivity|]. split; [|assumption].
    intros y [<- | Hy]; auto.
  - exists [], x, t. split; [reflexivity|]. split; [intros ? []|assumption].
Qed.

Section Order.
(** [lt] as Python's [<] on floats that are not NaN: asymmetric, and an
    element lies below the upper or above the lower of two ordered ones. *)
Hypothesis lt_asym : forall a b, lt a b = true -> lt b a = false.
Hypothesis lt_negtrans : forall a b c, lt a c = true -> lt a b = true \/ lt b c = true.

Lemma not_lt_trans (a b c : A) : lt a b = false -> lt b c = false -> lt a c = false.
Proof.
  intros Hab Hbc. destruct (lt a c) eqn:E; [|reflexivity].
  destruct (lt_negtrans a b c E); congruence.
Qed.

Lemma insert_desc_sorted (x : A) (l : list A) :
  StronglySorted (fun a b => lt a b = false) l ->
  StronglySorted (fun a b => lt a b = false) (insert_desc lt x l).
Proof.
  induction 1 as [|y t Ht IH Hy]; simpl; [repeat constructor|].
  destruct (lt x y) eqn:E.
  - constructor; [assumption|].
    apply Forall_forall. intros z Hz.
    apply Permutation_in with (l' := x :: t) in Hz;
      [|symmetry; apply insert_desc_perm].
    destruct Hz as [<- | Hz]; [now apply lt_asym|].
    rewrite Forall_forall in Hy. auto.
  - constructor; [now constructor|].
    constructor; [assumption|].
    rewrite Forall_forall in Hy |- *. intros z Hz.
    apply not_lt_trans with (b := y); auto.
Qed.

Lemma sort_desc_sorted (l : list A) :
  StronglySorted (fun a b => lt a b = false) (sort_desc lt l).
Proof.
  induction l as [|x t IH]; simpl; [constructor|]. now apply insert_desc_sorted.
Qed.
End Order.
End SortFacts.

(** * The similarity exploration loop *)

Lemma mapM_all_Ok {A B : Type} (f : A -> result B) (g : A -> B) (l : list A) :
  (forall x, In x l -> f x = Ok (g x)) -> mapM f l = Ok (map g l).
Proof.
  induction l as [|x t IH]; intros Hall; simpl; [reflexivity|].
  rewrite (Hall x) by (simpl; auto). simpl.
  rewrite IH by (intros; apply Hall; simpl; auto). reflexivity.
Qed.

Section ExplorerFacts.
Context {S : Type} (lt : S -> S -> bool).
Context (cosine_similarity : list float -> list float -> S) (round5 : S -> S).
Context (songs : list (string * string)) (item_embeddings : list (string * list float)).

(** The titles and the embeddings of the items of the dictionary. *)
Context (title : string -> string) (emb : string -> list float).
Hypothesis songs_title :
  forall i, In i (map fst item_embeddings) -> dict_get songs i = Ok (title i).
Hypothesis embeddings_emb :
  forall i, In i (map fst item_embeddings) -> dict_get item_embeddings i = Ok (emb i).

(** The keys of a dictionary are distinct. *)
Hypothesis distinct_keys : NoDup (map fst item_embeddings).

Local Abbreviation item_ids := (map fst item_embeddings).
Local Abbreviation sim q j := (round5 (cosine_similarity (emb q) (emb j))).
Local Abbreviation candidates q :=
  (candidate_entries cosine_similarity round5 title emb (map fst item_embeddings) q).
Local Abbreviation ranked q := (sorted_by_similarity lt (candidates q)).

Lemma explore_item_value (q : string) :
  In q item_ids ->
  explore_item lt cosine_similarity round5 songs item_embeddings item_ids q
  = Ok (title q, tl (ranked q)).
Proof.
  intros Hq. unfold explore_item.
  rewrite (songs_title q Hq), (embeddings_emb q Hq). simpl.
  rewrite (mapM_all_Ok _ (fun j => (title j, sim q j))); [reflexivity|].
  intros j Hj. unfold similarity_entry.
  now rewrite (songs_title j Hj), (embeddings_emb j Hj).
Qed.

Lemma explore_value :
  explore lt cosine_similarity round5 songs item_embeddings
  = Ok (map (fun q => (title q, tl (ranked q)))
          (firstn (List.length item_ids - 1) item_ids)).
Proof.
  unfold explore. apply mapM_all_Ok. intros q Hq.
  apply explore_item_value.
  rewrite <- (firstn_skipn (List.length item_ids - 1) item_ids).
  apply in_or_app. now left.
Qed.

(** The block printed for the item at position [idx], when it is not the
    last position. *)
Lemma explore_block (idx : nat) (q : string) :
  nth_error item_ids idx = Some q -> (Datatypes.S idx < List.length item_ids)%nat ->
  exists out, explore lt cosine_similarity round5 songs item_embeddings = Ok out
              /\ nth_error out idx = Some (title q, tl (ranked q)).
Proof.
  intros Hq Hidx. eexists. split; [apply explore_value|].
  rewrite nth_error_map, nth_error_firstn.
  replace (Nat.ltb idx (List.length item_ids - 1)) with true
    by (symmetry; apply Nat.ltb_lt; lia).
  now rewrite Hq.
Qed.

Lemma candidates_split (q : string) (pre post : list string) (d : string) :
  item_ids = pre ++ d :: post ->
  candidates q
  = map (fun j => (title j, sim q j)) pre
    ++ (title d, sim q d) :: map (fun j => (title j, sim q j)) post.
Proof.
  intros E. unfold candidate_entries. rewrite E, map_app. reflexivity.
Qed.

(** The ranking puts first the earliest candidate that all earlier ones are
    below and no later one exceeds. *)
Lemma ranked_head (q : string) (pre post : list string) (d : string) :
  item_ids = pre ++ d :: post ->
  (forall x, In x pre -> lt (sim q x) (sim q d) = true) ->
  (forall y, In y post -> lt (sim q d) (sim q y) = false) ->
  exists rest, ranked q = (title d, sim q d) :: rest
               /\ forall y, In y post -> In (title y, sim q y) rest.
Proof.
  intros E Hpre Hpost. unfold sorted_by_similarity.
  rewrite (candidates_split q pre post d E).
  destruct (sort_desc_head (fun a b : string * S => lt (snd a) (snd b))
              (map (fun j => (title j, sim q j)) pre)
              (map (fun j => (title j, sim q j)) post)
              (title d, sim q d)) as (rest & -> & Hperm).
  - intros x Hx. apply in_map_iff in Hx as (j & <- & Hj). simpl. auto.
  - intros y Hy. apply in_map_iff in Hy as (j & <- & Hj). simpl. auto.
  - exists rest. split; [reflexivity|]. intros y Hy.
    apply (Permutation_in _ (Permutation_sym Hperm)).
    apply in_or_app. right.
    apply in_map_iff. exists y. split; [reflexivity | assumption].
Qed.

(** [lt] as Python's [<] on floats that are not NaN. *)
Hypothesis lt_asym : forall a b, lt a b = true -> lt b a = false.
Hypothesis lt_negtrans : forall a b c, lt a c = true -> lt a b = true \/ lt b c = true.

(** C8 (as amended).  For a queried item [q] at a position [idx] other than
    the last, the loop prints under the title of [q] the list [l] obtained
    from the candidates, which are all the queried items, [q] included, each
    with the similarity to [q] rounded by [round5], ranked by descending
    similarity, with the first of the ranking ([dropped]) left out.  When
    every other item is strictly less similar to [q] than [q] is to itself,
    the entry left out is the one of [q]. *)
Theorem explore_ranks_candidates (idx : nat) (q : string) :
  nth_error item_ids idx = Some q ->
  (Datatypes.S idx < List.length item_ids)%nat ->
  exists out dropped l,
    explore lt cosine_similarity round5 songs item_embeddings = Ok out
    /\ nth_error out idx = Some (title q, l)
    /\ Permutation (dropped :: l) (candidates q)
    /\ descending lt (dropped :: l)
    /\ ((forall j, In j item_ids -> j <> q -> lt (sim q j) (sim q q) = true) ->
        dropped = (title q, sim q q)).
Proof.
  intros Hq Hidx. destruct (explore_block idx q Hq Hidx) as (out & Hout & Hnth).
  assert (Hperm : Permutation (candidates q) (ranked q)) by apply sort_desc_perm.
  destruct (ranked q) as [|dropped l] eqn:Eranked.
  - apply Permutation_sym, Permutation_nil in Hperm.
    unfold candidate_entries in Hperm. apply map_eq_nil in Hperm.
    rewrite Hperm in Hq. destruct idx; discriminate.
  - exists out, dropped, l. split; [assumption|]. split; [assumption|].
    split; [now symmetry|]. split.
    + unfold descending. rewrite <- Eranked. unfold sorted_by_similarity.
      apply sort_desc_sorted.
      * intros a b. apply lt_asym.
      * intros a b c. apply lt_negtrans.
    + intros Hmax. destruct (nth_error_split _ _ Hq) as (pre & post & E & _).
      assert (Hnd : NoDup (pre ++ q :: post)) by (rewrite <- E; exact distinct_keys).
      pose proof (NoDup_remove_2 _ _ _ Hnd) as Hnotin.
      destruct (ranked_head q pre post q E) as (rest & Hrest & _).
      * intros x Hx. apply Hmax.
        -- rewrite E. apply in_or_app. now left.
        -- intros ->. apply Hnotin, in_or_app. now left.
      * intros y Hy. apply lt_asym, Hmax.
        -- rewrite E. apply in_or_app. right. now right.
        -- intros ->. apply Hnotin, in_or_app. now right.
      * rewrite Eranked in Hrest. now inversion Hrest.
Qed.

(** C10 (as amended).  Let the queried item [q] (not the last of the list) come after an
    item [j] whose rounded similarity to [q] equals that of [q] to itself,
    no candidate having a greater one.  The ranking of the candidates then
    begins with an item [dropped] other than [q]: the first item in
    candidate order whose similarity is not below the self similarity,
    which is [j] when the items before [j] are below it.  The loop drops
    that entry and keeps the entry of [q] in the list it prints for [q]. *)
Theorem tie_before_query_is_dropped (q j : string) (pre mid post : list string) :
  item_ids = pre ++ j :: mid ++ q :: post ->
  post <> [] ->
  sim q j = sim q q ->
  (forall y, In y item_ids -> lt (sim q q) (sim q y) = false) ->
  exists out dropped l,
    explore lt cosine_similarity round5 songs item_embeddings = Ok out
    /\ nth_error out (List.length (pre ++ j :: mid)) = Some (title q, l)
    /\ ranked q = (title dropped, sim q dropped) :: l
    /\ In dropped (pre ++ [j]) /\ dropped <> q
    /\ lt (sim q dropped) (sim q q) = false
    /\ ((forall x, In x pre -> lt (sim q x) (sim q q) = true) -> dropped = j)
    /\ In (title q, sim q q) l.
Proof.
  intros E Hpost Htie Hmax.
  assert (E' : item_ids = (pre ++ j :: mid) ++ q :: post)
    by (rewrite E, <- app_assoc; reflexivity).
  assert (Hq : In q item_ids) by (rewrite E'; apply in_or_app; right; now left).
  assert (Hj : lt (sim q j) (sim q q) = false) by (rewrite Htie; now apply Hmax).
  destruct (first_failing (fun x => lt (sim q x) (sim q q)) (pre ++ [j]) j)
    as (pre' & d & post0 & Esplit & Hbelow & Hd);
    [apply in_or_app; right; now left | exact Hj |].
  assert (Hdin : In d (pre ++ [j])) by (rewrite Esplit; apply in_or_app; right; now left).
  assert (E'' : item_ids = pre' ++ d :: (post0 ++ mid ++ q :: post)).
  { rewrite E. change (j :: mid ++ q :: post) with ([j] ++ mid ++ q :: post).
    rewrite app_assoc, Esplit, <- app_assoc. reflexivity. }
  destruct (ranked_head q pre' (post0 ++ mid ++ q :: post) d E'') as (rest & Hrest & Hin).
  { intros x Hx. destruct (lt_negtrans _ (sim q d) _ (Hbelow x Hx)) as [H1 | H1];
      [assumption | congruence]. }
  { intros y Hy. destruct (lt (sim q d) (sim q y)) eqn:Edy; [|reflexivity].
    destruct (lt_negtrans _ (sim q q) _ Edy) as [H1 | H1]; [congruence|].
    rewrite Hmax in H1; [discriminate|].
    rewrite E''. apply in_or_app. right. now right. }
  destruct (explore_block (List.length (pre ++ j :: mid)) q) as (out & Hout & Hnth).
  { rewrite E', nth_error_app2, Nat.sub_diag by lia. reflexivity. }
  { rewrite E', !length_app. destruct post; [congruence | simpl; lia]. }
  exists out, d, rest. rewrite Hrest in Hnth. simpl in Hnth.
  split; [assumption|]. split; [assumption|]. split; [assumption|].
  split; [assumption|]. split; [|split; [assumption|split]].
  - intros ->. assert (Hnd : NoDup ((pre ++ j :: mid) ++ q :: post))
      by (rewrite <- E'; exact distinct_keys).
    apply NoDup_remove_2 in Hnd. apply Hnd, in_or_app. left.
    apply in_app_or in Hdin as [Hd' | [<- | []]];
      apply in_or_app; [now left | right; now left].
  - intros Hfirst. apply in_app_or in Hdin as [Hd' | [<- | []]]; [|reflexivity].
    rewrite (Hfirst d Hd') in Hd. discriminate.
  - apply Hin. apply in_or_app. right. apply in_or_app. right. now left.
Qed.
End ExplorerFacts.

(** ** The example: two songs with the same embedding *)

Lemma example_songs_title (i : string) :
  In i (map fst example_embeddings) -> dict_get example_songs i = Ok (example_title i).
Proof. intros [<- | [<- | [<- | []]]]; reflexivity. Qed.

Lemma example_embeddings_emb (i : string) :
  In i (map fst example_embeddings) ->
  dict_get example_embeddings i = Ok (example_emb i).
Proof. intros [<- | [<- | [<- | []]]]; reflexivity. Qed.

Lemma example_distinct_keys : NoDup (map fst example_embeddings).
Proof. repeat constructor; simpl; intuition discriminate. Qed.

Lemma Zltb_asym (a b : Z) : (a <? b) = true -> (b <? a) = false.
Proof. rewrite Z.ltb_lt, Z.ltb_ge. lia. Qed.

Lemma Zltb_negtrans (a b c : Z) : (a <? c) = true -> (a <? b) = true \/ (b <? c) = true.
Proof. rewrite !Z.ltb_lt. lia. Qed.

Lemma explore_ranks_candidates_witness :
  exists out dropped l,
    explore Z.ltb example_similarity (fun s => s) example_songs example_embeddings = Ok out
    /\ nth_error out 0 = Some ("Song A"%string, l)
    /\ Permutation (dropped :: l)
         [ ("Song A"%string, 100000); ("Song B"%string, 100000); ("Song C"%string, 0) ]
    /\ descending Z.ltb (dropped :: l).
Proof.
  destruct (explore_ranks_candidates Z.ltb example_similarity (fun s => s)
              example_songs example_embeddings example_title example_emb
              example_songs_title example_embeddings_emb example_distinct_keys
              Zltb_asym Zltb_negtrans 0%nat "a"%string)
    as (out & dropped & l & Hout & Hnth & Hperm & Hdesc & _).
  - reflexivity.
  - simpl. lia.
  - exists out, dropped, l. repeat split; assumption.
Defined.

(** C8 (as stated): every queried item gets the list of the other items,
    itself excluded.  With songs A and B of equal embedding (and C after
    them), the list printed for B holds B itself, the entry dropped being
    the one of A. *)
Lemma explore_lists_item_under_itself :
  explore Z.ltb example_similarity (fun s => s) example_songs example_embeddings
  = Ok [ ("Song A", [ ("Song B", 100000); ("Song C", 0) ]);
         ("Song B", [ ("Song B", 100000); ("Song C", 0) ]) ]%string
  /\ ~ every_item_listed_without_itself
         [ "Song A"; "Song B"; "Song C" ]%string
         [ ("Song A", [ ("Song B", 100000); ("Song C", 0) ]);
           ("Song B", [ ("Song B", 100000); ("Song C", 0) ]) ]%string.
Proof.
  split; [vm_compute; reflexivity|].
  intros Hall. destruct (Hall "Song B"%string) as (l & Hin & Hnot); [simpl; auto|].
  simpl in Hin. destruct Hin as [E | [E | []]]; inversion E; subst.
  apply Hnot. simpl. auto.
Qed.

Lemma tie_before_query_is_dropped_witness :
  exists out dropped l,
    explore Z.ltb example_similarity (fun s => s) example_songs example_embeddings = Ok out
    /\ nth_error out 1 = Some ("Song B"%string, l)
    /\ dropped = "a"%string
    /\ In ("Song B"%string, 100000) l.
Proof.
  destruct (tie_before_query_is_dropped Z.ltb example_similarity (fun s => s)
              example_songs example_embeddings example_title example_emb
              example_songs_title example_embeddings_emb example_distinct_keys
              Zltb_negtrans "b"%string "a"%string [] [] [ "c"%string ])
    as (out & dropped & l & Hout & Hnth & _ & _ & _ & _ & Hj & Hin).
  - reflexivity.
  - discriminate.
  - reflexivity.
  - intros y [<- | [<- | [<- | []]]]; reflexivity.
  - exists out, dropped, l. repeat split; try assumption.
    apply Hj. intros x [].
Defined.

(** C10 (as stated): the entry dropped is the one of the tying item.  With
    songs A, B, C of equal embedding and D after them, B ties with the query
    C and precedes it, and the entry dropped from the ranking for C is the
    one of A: the list printed for C holds B, and C itself. *)
Lemma tying_item_is_not_always_dropped :
  sorted_by_similarity Z.ltb
    (candidate_entries example_similarity (fun s => s)
       (fun i => match dict_get four_songs i with Ok t => t | Error _ => ""%string end)
       (fun i => match dict_get four_embeddings i with Ok e => e | Error _ => [] end)
       (map fst four_embeddings) "c")
  = [ ("Song A", 100000); ("Song B", 100000); ("Song C", 100000); ("Song D", 0) ]%string
  /\ explore Z.ltb example_similarity (fun s => s) four_songs four_embeddings
     = Ok [ ("Song A", [ ("Song B", 100000); ("Song C", 100000); ("Song D", 0) ]);
            ("Song B", [ ("Song B", 100000); ("Song C", 100000); ("Song D", 0) ]);
            ("Song C", [ ("Song B", 100000); ("Song C", 100000); ("Song D", 0) ]) ]%string
  /\ ~ tying_item_is_dropped
         [ ("Song A", 100000); ("Song B", 100000); ("Song C", 100000); ("Song D", 0) ]%string
         ("Song B"%string, 100000).
Proof.
  split; [vm_compute; reflexivity|]. split; [vm_compute; reflexivity|].
  unfold tying_item_is_dropped. simpl. intros E. discriminate.
Qed.

(** * Further properties of the procedure *)

(** ** The total and the sizes of the filtered relation *)

Lemma one_key_counted_once {K : Type} (dec : forall x y : K, {x = y} + {x <> y})
  (k0 : K) (D : list K) :
  NoDup D -> In k0 D ->
  fold_right (fun k n => ((if key_eqb dec k0 k then 1 else 0) + n)%nat) 0%nat D = 1%nat.
Proof.
  induction 1 as [|k D Hk Hnd IH]; intros Hin; [destruct Hin|]. simpl.
  destruct Hin as [-> | Hin].
  - rewrite key_eqb_refl.
    assert (Hzero : forall D', ~ In k0 D' ->
      fold_right (fun k n => ((if key_eqb dec k0 k then 1 else 0) + n)%nat) 0%nat D' = 0%nat).
    { induction D' as [|k' D' IH']; intros Hn; simpl; [reflexivity|].
      rewrite (proj2 (key_eqb_false dec k0 k')) by (intros ->; apply Hn; simpl; auto).
      simpl. apply IH'. intros Hin'. apply Hn. simpl. auto. }
    now rewrite (Hzero D Hk).
  - rewrite (proj2 (key_eqb_false dec k0 k)) by (intros ->; contradiction).
    simpl. auto.
Qed.

(** The groups of a GROUP BY share out the rows: their sizes add up to the
    number of rows. *)
Lemma group_sizes_add_up {A K : Type} (dec : forall x y : K, {x = y} + {x <> y})
  (key : A -> K) (l : list A) (D : list K) :
  NoDup D -> (forall x, In x l -> In (key x) D) ->
  fold_right (fun k n => (List.length (group_rows dec key l k) + n)%nat) 0%nat D
  = List.length l.
Proof.
  intros Hnd. induction l as [|x t IH]; intros Hall.
  - unfold group_rows. simpl. clear Hnd Hall.
    induction D as [|k D IHD]; simpl; [reflexivity | assumption].
  - assert (Hstep : forall D',
      fold_right (fun k n => (List.length (group_rows dec key (x :: t) k) + n)%nat) 0%nat D'
      = (fold_right (fun k n => ((if key_eqb dec (key x) k then 1 else 0) + n)%nat) 0%nat D'
         + fold_right (fun k n => (List.length (group_rows dec key t k) + n)%nat) 0%nat D')%nat).
    { induction D' as [|k D' IHD']; cbn [fold_right]; [reflexivity|]. rewrite IHD'.
      unfold group_rows. cbn [filter].
      destruct (key_eqb dec (key x) k); cbn [List.length]; lia. }
    rewrite Hstep, IH by (intros; apply Hall; simpl; auto).
    rewrite one_key_counted_once by (try apply Hall; simpl; auto). reflexivity.
Qed.

Lemma SUM_of_counts {K : Type} (f : K -> nat) (D : list K) :
  SUM (map (fun k => Z.of_nat (f k)) D)
  = Z.of_nat (fold_right (fun k n => (f k + n)%nat) 0%nat D).
Proof.
  unfold SUM. induction D as [|k D IH]; simpl; [reflexivity|]. rewrite IH. lia.
Qed.

Lemma SUM_item_frequency (vig : list item_group) :
  SUM (map frequency (item_frequency vig)) = COUNT vig.
Proof.
  unfold item_frequency, GROUP_BY. rewrite !map_map. simpl. unfold COUNT at 1.
  rewrite (SUM_of_counts (fun k => List.length (group_rows Z.eq_dec item_Id vig k))).
  unfold COUNT. f_equal. apply group_sizes_add_up; [apply NoDup_distinct|].
  intros x Hx. apply In_distinct. now apply in_map.
Qed.

(** X1.  The total [|D|] the procedure computes is the number of rows of
    [valid_item_groups]; it is NULL when that table is empty. *)
Theorem total_is_row_count (vig : list item_group) :
  total_frequency (item_frequency vig)
  = match vig with
    | [] => None
    | _ :: _ => Some (COUNT vig)
    end.
Proof.
  destruct vig as [|x t]; [reflexivity|].
  assert (Hf : In {| freq_item_Id := item_Id x;
                     frequency := item_count (x :: t) (item_Id x) |}
                  (item_frequency (x :: t))).
  { apply In_item_frequency. simpl. auto. }
  destruct (total_frequency_positive _ _ Hf) as [-> _].
  now rewrite SUM_item_frequency.
Qed.

Lemma group_size_in_valid_item_groups (vw : list item_group) (m M g : Z) :
  In g (map fst (valid_groups vw m M)) ->
  COUNT (group_rows Z.eq_dec group_Id (valid_item_groups vw m M) g)
  = group_size_among_valid vw m g.
Proof.
  intros Hg. unfold group_size_among_valid, group_rows, valid_item_groups.
  rewrite filter_filter. f_equal. apply filter_ext_in. intros r Hr.
  destruct (Z.eq_dec (group_Id r) g) as [E | E].
  - rewrite (proj2 (key_eqb_true Z.eq_dec _ _) E), (proj2 (Z.eqb_eq _ _) E). simpl.
    rewrite E, (proj2 (IN_true Z.eq_dec _ _) Hg), andb_true_r.
    apply eq_true_iff_eq. rewrite IN_true, valid_item_iff, Z.leb_le.
    split; [tauto|]. intros Hm. split; [now apply in_map | assumption].
  - rewrite (proj2 (key_eqb_false Z.eq_dec _ _) E), (proj2 (Z.eqb_neq _ _) E).
    reflexivity.
Qed.

(** X2.  Every group left in [valid_item_groups] has between 2 and
    [max_group_size] rows there. *)
Theorem kept_groups_within_bounds (vw : list item_group) (m M : Z) (r : item_group) :
  In r (valid_item_groups vw m M) ->
  2 <= COUNT (group_rows Z.eq_dec group_Id (valid_item_groups vw m M) (group_Id r)) <= M.
Proof.
  intros Hr. apply In_valid_item_groups in Hr as (_ & _ & Hg).
  rewrite (group_size_in_valid_item_groups vw m M _ Hg).
  now apply valid_group_iff.
Qed.

Lemma kept_groups_within_bounds_witness :
  2 <= COUNT (group_rows Z.eq_dec group_Id
                (valid_item_groups
                   [ {| item_Id := 1; group_Id := 1 |}; {| item_Id := 2; group_Id := 1 |};
                     {| item_Id := 1; group_Id := 2 |} ] 1 10) 1) <= 10.
Proof.
  apply (kept_groups_within_bounds
           [ {| item_Id := 1; group_Id := 1 |}; {| item_Id := 2; group_Id := 1 |};
             {| item_Id := 1; group_Id := 2 |} ] 1 10 {| item_Id := 1; group_Id := 1 |}).
  vm_compute. auto.
Defined.

Lemma length_filter_filter_le {A : Type} (p q : A -> bool) (l : list A) :
  (List.length (filter p (filter q l)) <= List.length (filter p l))%nat.
Proof.
  induction l as [|x t IH]; simpl; [lia|].
  destruct (q x); simpl; destruct (p x); simpl; lia.
Qed.

(** X3.  The frequency of an item in the filtered relation never exceeds its
    frequency in the view, and it can fall below [min_item_frequency]: the
    filters are applied once, not repeated until stable.  (Items 1 and 2
    share group 1 and each has one group of its own; with a minimum of 2
    both stay, with frequency 1.) *)
Theorem filtered_frequency_only_shrinks :
  (forall (vw : list item_group) (m M i : Z),
      item_count (valid_item_groups vw m M) i <= item_count vw i)
  /\ exists (vw : list item_group) (m M i : Z),
       In i (map item_Id (valid_item_groups vw m M))
       /\ item_count (valid_item_groups vw m M) i < m.
Proof.
  split.
  - intros vw m M i. unfold item_count, COUNT, group_rows, valid_item_groups.
    apply inj_le, length_filter_filter_le.
  - exists [ {| item_Id := 1; group_Id := 1 |}; {| item_Id := 2; group_Id := 1 |};
             {| item_Id := 1; group_Id := 2 |}; {| item_Id := 2; group_Id := 3 |} ],
           2, 10, 1.
    vm_compute. split; [auto | reflexivity].
Qed.

(** X4.  Every item of the co-occurrence table a call of [sp_ComputePMI]
    leaves is a valid item: its frequency in the view is at least
    [min_item_frequency]. *)
Theorem item_cooc_items_are_valid {F : Type} `{Float64 F}
  (vw : list item_group) (m M : Z) (db : database F) (r : cooc_row) :
  In r (cooc_columns (db_item_cooc (fst (sp_ComputePMI vw m M db)))) ->
  m <= item_count vw (item1_Id r) /\ m <= item_count vw (item2_Id r).
Proof.
  rewrite sp_ComputePMI_leaves. simpl. intros Hr.
  apply item_cooc_with_self_row in Hr as (_ & _ & H1 & H2).
  apply in_map_iff in H1 as (r1 & E1 & Hr1). apply in_map_iff in H2 as (r2 & E2 & Hr2).
  apply In_valid_item_groups in Hr1 as (_ & Hm1 & _).
  apply In_valid_item_groups in Hr2 as (_ & Hm2 & _).
  apply valid_item_iff in Hm1 as [_ Hm1]. apply valid_item_iff in Hm2 as [_ Hm2].
  rewrite <- E1, <- E2. auto.
Qed.

Lemma item_cooc_items_are_valid_witness :
  1 <= item_count two_items_view 1 /\ 1 <= item_count two_items_view 2.
Proof.
  apply (item_cooc_items_are_valid two_items_view 1 10 empty_database
           {| item1_Id := 1; item2_Id := 2; cooc := 1 |}).
  simpl. auto.
Defined.

(** ** One row per pair, from the join to the PMI statement *)

Lemma NoDup_item_frequency_keys (vig : list item_group) :
  NoDup (map freq_item_Id (item_frequency vig)).
Proof.
  unfold item_frequency. rewrite map_map. simpl.
  change (fun x : Z * list item_group => fst x) with (@fst Z (list item_group)).
  rewrite GROUP_BY_keys. apply NoDup_distinct.
Qed.

Lemma NoDup_pairwise_keys (vig : list item_group) :
  NoDup (map pair_key (item_cooc_pairwise vig)).
Proof.
  unfold item_cooc_pairwise. rewrite map_map. unfold pair_key. simpl.
  rewrite (map_ext _ (@fst (Z * Z) (list cooc_row))) by (intros [[? ?] ?]; reflexivity).
  rewrite GROUP_BY_keys. apply NoDup_distinct.
Qed.

Lemma filter_none {A : Type} (p : A -> bool) (l : list A) :
  (forall y, In y l -> p y = false) -> filter p l = [].
Proof.
  induction l as [|y t IH]; intros Hall; simpl; [reflexivity|].
  rewrite (Hall y) by (simpl; auto). apply IH. intros. apply Hall. simpl. auto.
Qed.

(** A key that is unique in a table selects exactly its row. *)
Lemma filter_key_singleton {A : Type} (key : A -> Z) (l : list A) (x : A) :
  NoDup (map key l) -> In x l -> filter (fun y => key x =? key y) l = [x].
Proof.
  induction l as [|y t IH]; simpl; intros Hnd Hx; [destruct Hx|].
  inversion Hnd as [|? ? Hy Ht]; subst. destruct Hx as [-> | Hx].
  - rewrite Z.eqb_refl. f_equal. apply filter_none. intros z Hz.
    apply Z.eqb_neq. intros E. apply Hy. rewrite E. now apply in_map.
  - replace (key x =? key y) with false; [now apply IH|].
    symmetry. apply Z.eqb_neq. intros E. apply Hy. rewrite <- E. now apply in_map.
Qed.

(** Each row of the table meets exactly one frequency row per item. *)
Lemma pmi_join_one_match (tbl : list cooc_row) (vig : list item_group) :
  (forall a, In a tbl ->
     In (item1_Id a) (map item_Id vig) /\ In (item2_Id a) (map item_Id vig)) ->
  pmi_join tbl (item_frequency vig)
  = map (fun a =>
           (a,
            {| freq_item_Id := item1_Id a; frequency := item_count vig (item1_Id a) |},
            {| freq_item_Id := item2_Id a; frequency := item_count vig (item2_Id a) |}))
      tbl.
Proof.
  assert (Hone : forall i, In i (map item_Id vig) ->
    filter (fun f => i =? freq_item_Id f) (item_frequency vig)
    = [ {| freq_item_Id := i; frequency := item_count vig i |} ]).
  { intros i Hi.
    apply (filter_key_singleton freq_item_Id (item_frequency vig)
             {| freq_item_Id := i; frequency := item_count vig i |}).
    - apply NoDup_item_frequency_keys.
    - apply In_item_frequency. simpl. auto. }
  unfold pmi_join. induction tbl as [|a t IH]; intros Hall; simpl; [reflexivity|].
  destruct (Hall a) as [H1 H2]; [simpl; auto|].
  rewrite (Hone _ H1). simpl. rewrite (Hone _ H2). simpl.
  f_equal. apply IH. intros. apply Hall. simpl. auto.
Qed.

Lemma mapM_map_inv {A B C : Type} (f : A -> result B) (g : B -> C) (h : A -> C)
  (l : list A) (l' : list B) :
  mapM f l = Ok l' ->
  (forall x y, In x l -> f x = Ok y -> g y = h x) ->
  map g l' = map h l.
Proof.
  revert l'. induction l as [|x t IH]; simpl; intros l' E Hgh.
  - now inversion E.
  - destruct (f x) as [y|] eqn:Ex; simpl in E; [|discriminate].
    destruct (mapM f t) as [ys|]; simpl in E; [|discriminate].
    inversion E. simpl. f_equal; [apply Hgh; auto|].
    apply IH; [reflexivity|]. intros. eapply Hgh; eauto.
Qed.

Section RowsOfTheFinalTable.
Context {F : Type} `{Float64 F}.

Lemma final_rows_are_cooc_rows (vig : list item_group) (out : list (pmi_row F)) :
  item_cooc_pmi (item_cooc_with_self (item_cooc_pairwise vig) (item_frequency vig))
    (item_frequency vig) (total_frequency (item_frequency vig)) = Ok out ->
  map cooc_part out
  = item_cooc_with_self (item_cooc_pairwise vig) (item_frequency vig).
Proof.
  intros E. unfold item_cooc_pmi in E.
  rewrite (mapM_map_inv _ cooc_part (fun abc => fst (fst abc)) _ _ E).
  - rewrite pmi_join_one_match.
    + rewrite map_map. simpl. apply map_id.
    + intros a Ha. apply item_cooc_with_self_row in Ha as (_ & _ & H1 & H2). auto.
  - intros ((a & b) & c) y _ Hy. simpl.
    destruct (pmi_value _ _ _ _); simpl in Hy; [|discriminate].
    inversion Hy. unfold cooc_part. simpl. now destruct a.
Qed.

Lemma NoDup_keys_with_self (vig : list item_group) :
  NoDup (map pair_key
           (item_cooc_with_self (item_cooc_pairwise vig) (item_frequency vig))).
Proof.
  unfold item_cooc_with_self. rewrite map_app. apply NoDup_app.
  - apply NoDup_pairwise_keys.
  - rewrite map_map. unfold pair_key. simpl.
    pose proof (NoDup_item_frequency_keys vig) as Hnd.
    induction (item_frequency vig) as [|f t IH]; simpl; [constructor|].
    inversion Hnd as [|? ? Hf Ht]; subst. constructor; [|auto].
    intros Hin. apply Hf. apply in_map_iff in Hin as (f' & E & Hf').
    injection E as E' _. rewrite <- E'. now apply in_map.
  - intros k Hk Hself.
    apply in_map_iff in Hk as (r & <- & Hr).
    apply item_cooc_pairwise_row in Hr as [Hlt _].
    rewrite map_map in Hself. apply in_map_iff in Hself as (f & E & _).
    unfold pair_key in E. simpl in E. inversion E. lia.
Qed.

(** X5.  The co-occurrence table a call of [sp_ComputePMI] leaves has one row
    for each pair that has any: no pair [(item1_Id, item2_Id)] occurs
    twice. *)
Theorem item_cooc_one_row_per_pair
  (vw : list item_group) (m M : Z) (db : database F) :
  NoDup (map pair_key (cooc_columns (db_item_cooc (fst (sp_ComputePMI vw m M db))))).
Proof.
  rewrite sp_ComputePMI_leaves. simpl. apply NoDup_keys_with_self.
Qed.

(** X6.  "Compute PMI", run on the tables a call of [sp_ComputePMI] leaves,
    neither drops nor repeats a row: the pairs and counts of its result are,
    in order, those of the table it reads, one row per co-occurring pair plus
    one per item of [item_frequency]. *)
Theorem pmi_step_keeps_every_row
  (vw : list item_group) (m M : Z) (db : database F) :
  let left := fst (sp_ComputePMI vw m M db) in
  exists out,
    item_cooc_pmi (cooc_columns (db_item_cooc left)) (db_item_frequency left)
      (total_frequency (db_item_frequency left)) = Ok out
    /\ map cooc_part out = cooc_columns (db_item_cooc left)
    /\ List.length out
       = (List.length (item_cooc_pairwise (db_valid_item_groups left))
          + List.length (db_item_frequency left))%nat.
Proof.
  cbv zeta. rewrite sp_ComputePMI_leaves. simpl.
  destruct (pmi_statement_succeeds (F := F) (valid_item_groups vw m M)) as [out E].
  exists out. pose proof (final_rows_are_cooc_rows _ _ E) as Hrows.
  split; [exact E|]. split; [exact Hrows|].
  rewrite <- (length_map cooc_part), Hrows.
  unfold item_cooc_with_self. now rewrite length_app, length_map.
Qed.

(** X7.  After a call of [sp_ComputePMI], [item_cooc] has no [pmi] column:
    [sp_TrainItemMatchingModel] and the preview of cell 30, which both name
    it, fail on the tables the call leaves. *)
Theorem later_cells_miss_pmi_column (float_lt : F -> F -> bool)
  (vw : list item_group) (m M dimensions : Z) (db : database F) :
  sp_TrainItemMatchingModel dimensions (fst (sp_ComputePMI vw m M db))
  = Error "Unrecognized name: pmi"
  /\ view_cooccurrence float_lt (fst (sp_ComputePMI vw m M db))
     = Error "Name pmi not found inside a".
Proof.
  rewrite sp_ComputePMI_leaves. split; reflexivity.
Qed.
End RowsOfTheFinalTable.

(** ** Counts against frequencies *)

Lemma length_filter_implied {A : Type} (p q : A -> bool) (l : list A) :
  (forall x, p x = true -> q x = true) ->
  (List.length (filter p l) <= List.length (filter q l))%nat.
Proof.
  intros Hpq. induction l as [|x t IH]; simpl; [lia|].
  destruct (p x) eqn:Ep; [rewrite (Hpq x Ep); simpl; lia|].
  destruct (q x); simpl; lia.
Qed.

(** X8.  Where the rows of the view are pairwise distinct, the count of a
    pair never exceeds the frequency of either of its items in
    [item_frequency]. *)
Theorem cooc_at_most_frequency (vw : list item_group) (m M : Z) (r : cooc_row) :
  NoDup vw ->
  In r (item_cooc_pairwise (valid_item_groups vw m M)) ->
  cooc r <= item_count (valid_item_groups vw m M) (item1_Id r)
  /\ cooc r <= item_count (valid_item_groups vw m M) (item2_Id r).
Proof.
  intros Hnd Hr. set (vig := valid_item_groups vw m M) in *.
  assert (Hvig : NoDup vig) by now apply NoDup_valid_item_groups.
  pose proof (item_cooc_pairwise_row _ _ Hr) as (Hlt & _).
  apply In_item_cooc_pairwise in Hr as [_ ->].
  change (pair_key r) with (item1_Id r, item2_Id r). unfold item_count, COUNT.
  rewrite (join_rows_of_pair vig _ _ Hvig Hlt). split; apply inj_le.
  - unfold group_rows. apply length_filter_implied. intros x Hx.
    apply andb_true_iff in Hx as [Hx _]. apply Z.eqb_eq in Hx.
    now apply key_eqb_true.
  - set (L := filter _ vig).
    rewrite <- (length_map (fun x => {| item_Id := item2_Id r; group_Id := group_Id x |}) L).
    apply NoDup_incl_length.
    + rewrite <- (map_map group_Id (fun g => {| item_Id := item2_Id r; group_Id := g |})).
      apply Injective_map_NoDup; [intros g g' E; now inversion E|].
      apply NoDup_groups_of_item with (a := item1_Id r); [assumption|].
      intros x Hx. apply andb_true_iff in Hx as [Hx _]. now apply Z.eqb_eq.
    + intros y Hy. apply in_map_iff in Hy as (x & <- & Hx).
      apply filter_In in Hx as [_ Hx]. apply andb_true_iff in Hx as [_ Hx].
      apply IN_true in Hx. unfold group_rows. apply filter_In.
      split; [assumption | apply key_eqb_refl].
Qed.

Lemma cooc_at_most_frequency_witness :
  2 <= item_count
         (valid_item_groups
            [ {| item_Id := 1; group_Id := 1 |}; {| item_Id := 2; group_Id := 1 |};
              {| item_Id := 3; group_Id := 1 |}; {| item_Id := 1; group_Id := 2 |};
              {| item_Id := 2; group_Id := 2 |} ] 1 10) 1
  /\ 2 <= item_count
            (valid_item_groups
               [ {| item_Id := 1; group_Id := 1 |}; {| item_Id := 2; group_Id := 1 |};
                 {| item_Id := 3; group_Id := 1 |}; {| item_Id := 1; group_Id := 2 |};
                 {| item_Id := 2; group_Id := 2 |} ] 1 10) 2.
Proof.
  apply (cooc_at_most_frequency
           [ {| item_Id := 1; group_Id := 1 |}; {| item_Id := 2; group_Id := 1 |};
             {| item_Id := 3; group_Id := 1 |}; {| item_Id := 1; group_Id := 2 |};
             {| item_Id := 2; group_Id := 2 |} ] 1 10
           {| item1_Id := 1; item2_Id := 2; cooc := 2 |}).
  - repeat constructor; simpl; intuition discriminate.
  - vm_compute. auto.
Defined.

(** ** The MAX merge and the choice of the top items *)

Lemma fold_left_max_in (t : list Z) (x0 : Z) : In (fold_left Z.max t x0) (x0 :: t).
Proof.
  revert x0. induction t as [|x t IH]; intros x0; simpl; [auto|].
  destruct (IH (Z.max x0 x)) as [E | Hin]; [|auto].
  rewrite <- E. destruct (Z.max_spec x0 x) as [[_ ->] | [_ ->]]; auto.
Qed.

Lemma MAX_attained (l : list Z) : l <> [] -> In (MAX l) l.
Proof.
  destruct l as [|x0 t]; [congruence|]. intros _. apply fold_left_max_in.
Qed.

Lemma NoDup_merge_max_keys (merged : list cooc_row) :
  NoDup (map pair_key (merge_max merged)).
Proof.
  unfold merge_max. rewrite map_map. unfold pair_key. simpl.
  rewrite (map_ext _ (@fst (Z * Z) (list cooc_row))) by (intros [[? ?] ?]; reflexivity).
  rewrite GROUP_BY_keys. apply NoDup_distinct.
Qed.

(** X9.  The statement that merges the negative samples, taken on its own
    rows: the result has one row per pair, every merged row finds its pair
    with a count at least its own, and the count kept for a pair is the
    count of one of the merged rows of that pair (the largest). *)
Theorem merge_max_keeps_largest (merged : list cooc_row) :
  NoDup (map pair_key (merge_max merged))
  /\ (forall r0, In r0 merged ->
        exists r, In r (merge_max merged)
                  /\ pair_key r = pair_key r0 /\ cooc r0 <= cooc r)
  /\ (forall r, In r (merge_max merged) ->
        exists r0, In r0 merged /\ pair_key r0 = pair_key r /\ cooc r0 = cooc r).
Proof.
  split; [apply NoDup_merge_max_keys|]. split.
  - intros r0 Hr0.
    destruct (merge_max_never_decreases merged [] r0 Hr0) as (r & Hr & Hk & Hc).
    rewrite app_nil_r in Hr. eauto.
  - intros r Hr. unfold merge_max in Hr.
    apply in_map_iff in Hr as ((k & g) & <- & Hg).
    apply In_GROUP_BY in Hg as [Hk ->]. simpl.
    assert (Hne : map cooc (group_rows pair_dec pair_key merged k) <> []).
    { apply (group_rows_nonempty pair_dec) in Hk.
      destruct (group_rows pair_dec pair_key merged k); simpl in *; [lia | discriminate]. }
    apply MAX_attained, in_map_iff in Hne as (r0 & Ec & Hr0).
    apply filter_In in Hr0 as [Hr0 Ek]. apply key_eqb_true in Ek.
    exists r0. split; [assumption|]. split; [|assumption].
    rewrite Ek. unfold pair_key. simpl. now destruct k.
Qed.

(** The rows numbered up to [n] are the first [n] rows. *)
Lemma numbered_prefix {A : Type} (n : Z) (l : list A) (s : nat) :
  map snd (filter (fun r : Z * A => fst r <=? n)
             (combine (map Z.of_nat (seq s (List.length l))) l))
  = firstn (Z.to_nat (n + 1 - Z.of_nat s)) l.
Proof.
  revert s. induction l as [|x t IH]; intros s; simpl.
  - now rewrite firstn_nil.
  - destruct (Z.leb_spec (Z.of_nat s) n) as [Hle | Hgt]; simpl.
    + rewrite IH. replace (Z.to_nat (n + 1 - Z.of_nat s))
        with (Datatypes.S (Z.to_nat (n + 1 - Z.of_nat (Datatypes.S s)))) by lia.
      reflexivity.
    + rewrite IH.
      replace (Z.to_nat (n + 1 - Z.of_nat (Datatypes.S s))) with 0%nat by lia.
      replace (Z.to_nat (n + 1 - Z.of_nat s)) with 0%nat by lia.
      now rewrite firstn_0.
Qed.

Lemma top_items_prefix (n : Z) (freqs : list frequency_row) :
  top_items n freqs
  = map freq_item_Id
      (firstn (Z.to_nat n) (sort_desc (fun a b => frequency a <? frequency b) freqs)).
Proof.
  unfold top_items, ordered_items. cbv zeta.
  rewrite <- (length_map freq_item_Id), numbered_prefix, firstn_map.
  f_equal. f_equal. lia.
Qed.

Lemma StronglySorted_app_order {A : Type} (R : A -> A -> Prop) (l1 l2 : list A) :
  StronglySorted R (l1 ++ l2) -> forall a b, In a l1 -> In b l2 -> R a b.
Proof.
  induction l1 as [|x t IH]; simpl; intros Hs a b Ha Hb; [destruct Ha|].
  inversion Hs as [|? ? Ht Hx]; subst. destruct Ha as [<- | Ha].
  - rewrite Forall_forall in Hx. apply Hx, in_or_app. now right.
  - now apply IH.
Qed.

(** X10.  [top_items] picks [negative_sample_size] items (all of them when
    there are fewer), and no item left out has a higher frequency than an
    item picked. *)
Theorem top_items_are_most_frequent (n : Z) (freqs : list frequency_row) :
  exists picked rest,
    Permutation (picked ++ rest) freqs
    /\ top_items n freqs = map freq_item_Id picked
    /\ List.length picked = Nat.min (Z.to_nat n) (List.length freqs)
    /\ forall p r, In p picked -> In r rest -> frequency r <= frequency p.
Proof.
  set (sorted := sort_desc (fun a b => frequency a <? frequency b) freqs).
  assert (Hperm : Permutation freqs sorted) by apply sort_desc_perm.
  exists (firstn (Z.to_nat n) sorted), (skipn (Z.to_nat n) sorted).
  split; [rewrite firstn_skipn; now symmetry|].
  split; [apply top_items_prefix|].
  split; [rewrite length_firstn; now rewrite (Permutation_length Hperm)|].
  intros p r Hp Hr.
  assert (Hs : StronglySorted (fun a b => (frequency a <? frequency b) = false)
                 (firstn (Z.to_nat n) sorted ++ skipn (Z.to_nat n) sorted)).
  { rewrite firstn_skipn. apply sort_desc_sorted.
    - intros a b. rewrite Z.ltb_lt, Z.ltb_ge. lia.
    - intros a b c. rewrite !Z.ltb_lt. lia. }
  apply Z.ltb_ge. exact (StronglySorted_app_order _ _ _ Hs p r Hp Hr).
Qed.

(** ** The preview of the table *)

Lemma In_firstn {A : Type} (n : nat) (l : list A) (x : A) :
  In x (firstn n l) -> In x l.
Proof.
  intros Hx. rewrite <- (firstn_skipn n l). apply in_or_app. now left.
Qed.

Section PreviewFacts.
Context {F : Type} `{Float64 F} (float_lt : F -> F -> bool).

Lemma In_preview_join (tbl : list (pmi_row F)) (freqs : list frequency_row)
  (a : pmi_row F) (b c : frequency_row) :
  In (a, b, c) (preview_join tbl freqs)
  <-> In a tbl /\ In b freqs /\ In c freqs
      /\ pmi_item1_Id a = freq_item_Id b /\ pmi_item2_Id a = freq_item_Id c
      /\ pmi_item1_Id a <> pmi_item2_Id a.
Proof.
  unfold preview_join. rewrite filter_In, in_flat_map. simpl.
  rewrite negb_true_iff, Z.eqb_neq. split.
  - intros [(a' & Ha & Hin) Hne]. apply in_flat_map in Hin as (b' & Hb & Hin).
    apply in_map_iff in Hin as (c' & E & Hc). inversion E; subst.
    apply filter_In in Hb as [Hb Eb]. apply filter_In in Hc as [Hc Ec].
    rewrite Z.eqb_eq in Eb, Ec. auto 7.
  - intros (Ha & Hb & Hc & Eb & Ec & Hne). split; [|assumption].
    exists a. split; [assumption|].
    apply in_flat_map. exists b. split; [apply filter_In; now rewrite Z.eqb_eq|].
    apply in_map_iff. exists c. split; [reflexivity|].
    apply filter_In. now rewrite Z.eqb_eq.
Qed.

(** X11.  The preview of cell 30, on a database whose [item_cooc] has the
    [pmi] column, shows at most 10 rows and no self pair; every row shown
    is a row of [item_cooc] with its count and PMI, set beside frequencies
    that [item_frequency] stores for its two items, and its score is
    [cooc * pmi]. *)
Theorem preview_shows_no_self_pair (db : database F) (rows : list (pmi_row F))
  (shown : list (preview_row F)) :
  db_item_cooc db = WithPmi rows ->
  view_cooccurrence float_lt db = Ok shown ->
  (List.length shown <= 10)%nat
  /\ forall row, In row shown ->
       pv_item1_Id row <> pv_item2_Id row
       /\ In {| pmi_item1_Id := pv_item1_Id row; pmi_item2_Id := pv_item2_Id row;
                pmi_cooc := pv_cooc row; pmi := pv_pmi row |} rows
       /\ In {| freq_item_Id := pv_item1_Id row; frequency := pv_freq1 row |}
            (db_item_frequency db)
       /\ In {| freq_item_Id := pv_item2_Id row; frequency := pv_freq2 row |}
            (db_item_frequency db)
       /\ pv_score row = option_map (float_mul_int (pv_cooc row)) (pv_pmi row).
Proof.
  unfold view_cooccurrence. intros -> E.
  remember (sort_desc (fun x y => score_lt float_lt (pv_score x) (pv_score y))
              (map preview_select (preview_join rows (db_item_frequency db))))
    as sorted eqn:Esorted.
  assert (Eshown : shown = firstn 10 sorted) by congruence.
  subst shown sorted. clear E.
  split; [apply firstn_le_length|].
  intros row Hrow. apply In_firstn in Hrow.
  apply (Permutation_in _ (Permutation_sym (sort_desc_perm _ _))) in Hrow.
  apply in_map_iff in Hrow as (((a & b) & c) & <- & Hin).
  apply In_preview_join in Hin as (Ha & Hb & Hc & Eb & Ec & Hne).
  simpl. split; [assumption|]. split; [now destruct a|].
  split; [rewrite Eb; now destruct b|]. split; [rewrite Ec; now destruct c|].
  reflexivity.
Qed.
End PreviewFacts.

Lemma preview_shows_no_self_pair_witness :
  (1 <= 10)%nat
  /\ forall row,
       In row [ {| pv_item1_Id := 1; pv_item2_Id := 2; pv_freq1 := 1; pv_freq2 := 1;
                   pv_cooc := 1; pv_pmi := Some (pmi_formula 1 1 1 2);
                   pv_score := Some (EMulInt 1 (pmi_formula 1 1 1 2)) |} ] ->
       pv_item1_Id row <> pv_item2_Id row
       /\ In {| pmi_item1_Id := pv_item1_Id row; pmi_item2_Id := pv_item2_Id row;
                pmi_cooc := pv_cooc row; pmi := pv_pmi row |}
            [ {| pmi_item1_Id := 1; pmi_item2_Id := 2; pmi_cooc := 1;
                 pmi := Some (pmi_formula 1 1 1 2) |};
              {| pmi_item1_Id := 1; pmi_item2_Id := 1; pmi_cooc := 1;
                 pmi := Some (pmi_formula 1 1 1 2) |};
              {| pmi_item1_Id := 2; pmi_item2_Id := 2; pmi_cooc := 1;
                 pmi := Some (pmi_formula 1 1 1 2) |} ]
       /\ In {| freq_item_Id := pv_item1_Id row; frequency := pv_freq1 row |}
            (db_item_frequency two_items_with_pmi)
       /\ In {| freq_item_Id := pv_item2_Id row; frequency := pv_freq2 row |}
            (db_item_frequency two_items_with_pmi)
       /\ pv_score row = option_map (EMulInt (pv_cooc row)) (pv_pmi row).
Proof.
  exact (preview_shows_no_self_pair (fun _ _ => false) two_items_with_pmi _ _
           eq_refl eq_refl).
Defined.

(** * Further properties of the embedding builder *)

Lemma factor_in_range_dec (e : factor_weight) :
  {factor_in_range e} + {~ factor_in_range e}.
Proof.
  unfold factor_in_range.
  destruct (Z_lt_dec (- Z.of_nat embedding_size) (factor e));
    destruct (Z_le_dec (factor e) (Z.of_nat embedding_size)); (left; lia) || (right; lia).
Qed.

Lemma accumulate_position (v : list float) (e : factor_weight) :
  List.length v = embedding_size -> factor_in_range e ->
  accumulate v e = Ok (add_at v (factor_position e) (weight e))
  /\ (factor_position e < embedding_size)%nat.
Proof.
  unfold factor_in_range, accumulate, py_index, factor_position. intros -> Hr.
  change (Z.of_nat embedding_size) with 100 in *.
  destruct (Z.leb_spec 1 (factor e)) as [H1 | H1].
  - replace ((0 <=? factor e - 1) && (factor e - 1 <? 100)) with true
      by (symmetry; apply andb_true_iff; rewrite Z.leb_le, Z.ltb_lt; lia).
    cbn [bind]. split; [reflexivity | unfold embedding_size; lia].
  - replace ((0 <=? factor e - 1) && (factor e - 1 <? 100)) with false
      by (symmetry; apply andb_false_iff; left; apply Z.leb_gt; lia).
    replace ((- (100) <=? factor e - 1) && (factor e - 1 <? 0)) with true
      by (symmetry; apply andb_true_iff; rewrite Z.leb_le, Z.ltb_lt; lia).
    cbn [bind]. split; [reflexivity | unfold embedding_size; lia].
Qed.

Lemma accumulate_out_of_range (v : list float) (e : factor_weight) :
  List.length v = embedding_size -> ~ factor_in_range e ->
  accumulate v e = Error "IndexError: list index out of range".
Proof.
  unfold factor_in_range, accumulate, py_index. intros -> Hr.
  change (Z.of_nat embedding_size) with 100 in *.
  replace ((0 <=? factor e - 1) && (factor e - 1 <? 100)) with false.
  - replace ((- (100) <=? factor e - 1) && (factor e - 1 <? 0)) with false;
      [reflexivity|].
    symmetry. apply andb_false_iff.
    destruct (Z.leb_spec (- (100)) (factor e - 1)); [right; apply Z.ltb_ge; lia | now left].
  - symmetry. apply andb_false_iff.
    destruct (Z.leb_spec 0 (factor e - 1)); [right; apply Z.ltb_ge; lia | now left].
Qed.

Lemma foldM_accumulate_wrapped (es : list factor_weight) (v : list float) :
  List.length v = embedding_size ->
  (forall e, In e es -> factor_in_range e) ->
  exists v', foldM accumulate es v = Ok v'
    /\ List.length v' = embedding_size
    /\ forall p, (p < embedding_size)%nat ->
         nth p v' 0%float
         = fold_left PrimFloat.add
             (map weight (filter (fun e => Nat.eqb (factor_position e) p) es))
             (nth p v 0%float).
Proof.
  revert v. induction es as [|e t IH]; intros v Hlen Hall; simpl.
  - exists v. auto.
  - destruct (accumulate_position v e Hlen) as [-> Hpos]; [apply Hall; simpl; auto|].
    simpl.
    destruct (IH (add_at v (factor_position e) (weight e))) as (v' & -> & Hlen' & Hnth).
    { now rewrite length_add_at. }
    { intros. apply Hall. simpl. auto. }
    exists v'. split; [reflexivity|]. split; [assumption|].
    intros p Hp. rewrite (Hnth p Hp), nth_add_at by (rewrite Hlen; exact Hpos).
    rewrite (Nat.eqb_sym (factor_position e) p).
    destruct (Nat.eqb p (factor_position e)); reflexivity.
Qed.

Lemma foldM_accumulate_fails (es : list factor_weight) (v : list float) :
  List.length v = embedding_size ->
  (exists e, In e es /\ ~ factor_in_range e) ->
  foldM accumulate es v = Error "IndexError: list index out of range".
Proof.
  revert v. induction es as [|e t IH]; intros v Hlen (e0 & Hin & Hbad); [destruct Hin|].
  simpl. destruct (factor_in_range_dec e) as [Hok | Hno].
  - destruct (accumulate_position v e Hlen Hok) as [-> _]. simpl.
    apply IH; [now rewrite length_add_at|].
    destruct Hin as [<- | Hin]; [contradiction | eauto].
  - now rewrite (accumulate_out_of_range v e Hlen Hno).
Qed.

(** The vector of one item: built when all its factor indices are accepted,
    an [IndexError] otherwise. *)
Lemma item_embedding_cases (results : list weights_row) (item : string) :
  ((forall e, In e (flat_map factor_weights (embedding_pair results item)) ->
              factor_in_range e)
   /\ exists v, item_embedding results item = Ok v
        /\ List.length v = embedding_size
        /\ forall p, (p < embedding_size)%nat ->
             nth p v 0%float
             = fold_left PrimFloat.add (weights_to results item p) 0%float)
  \/ ((exists e, In e (flat_map factor_weights (embedding_pair results item))
                 /\ ~ factor_in_range e)
      /\ item_embedding results item = Error "IndexError: list index out of range").
Proof.
  unfold item_embedding. rewrite foldM_flat_map.
  destruct (Forall_Exists_dec factor_in_range factor_in_range_dec
              (flat_map factor_weights (embedding_pair results item))) as [Hall | Hex].
  - left. rewrite Forall_forall in Hall. split; [assumption|].
    destruct (foldM_accumulate_wrapped _ (repeat 0%float embedding_size)
                (repeat_length _ _) Hall) as (v & Hv & Hlen & Hnth).
    exists v. split; [assumption|]. split; [assumption|].
    intros p Hp. rewrite (Hnth p Hp), nth_repeat_zero. reflexivity.
  - right. apply Exists_exists in Hex. split; [assumption|].
    apply foldM_accumulate_fails; [apply repeat_length | assumption].
Qed.

Lemma mapM_fails_with {A B : Type} (f : A -> result B) (l : list A) (msg : string) :
  (forall x, In x l -> (exists y, f x = Ok y) \/ f x = Error msg) ->
  (exists x, In x l /\ f x = Error msg) ->
  mapM f l = Error msg.
Proof.
  induction l as [|x t IH]; intros Hall (x0 & Hin & Hx0); [destruct Hin|]. simpl.
  destruct (Hall x) as [[y Hy] | Hy]; [simpl; auto | | now rewrite Hy].
  rewrite Hy. simpl.
  rewrite IH; [reflexivity | intros; apply Hall; simpl; auto |].
  destruct Hin as [<- | Hin]; [congruence | eauto].
Qed.

Lemma mapM_Error_from {A B : Type} (f : A -> result B) (l : list A) (msg : string) :
  mapM f l = Error msg -> exists x, In x l /\ f x = Error msg.
Proof.
  induction l as [|x t IH]; simpl; intros E; [discriminate|].
  destruct (f x) as [y|msg'] eqn:Ex; simpl in E.
  - destruct (mapM f t) as [ys|msg'] eqn:Et; simpl in E; [discriminate|].
    inversion E; subst. destruct (IH eq_refl) as (x0 & Hin & Hx0). eauto.
  - inversion E; subst. eauto.
Qed.

Lemma element_of_item (results : list weights_row) (r : weights_row) (e : factor_weight) :
  In r results -> In e (factor_weights r) ->
  In e (flat_map factor_weights (embedding_pair results (feature r))).
Proof.
  intros Hr He. apply in_flat_map. exists r. split; [|assumption].
  apply filter_In. split; [assumption | apply key_eqb_refl].
Qed.

(** X12.  Factor indices from -99 to 100 are all accepted, the ones below 1
    counting from the end of the vector: position [p] of an item's vector is
    the sum, started at 0.0 and taken in row order, of the weights whose
    index addresses [p], so a factor 0 adds to the last position. *)
Theorem process_results_wraps_low_factors (results : list weights_row) :
  (forall r e, In r results -> In e (factor_weights r) -> factor_in_range e) ->
  exists d, process_results results = Ok d
    /\ forall item v, In (item, v) d ->
         List.length v = embedding_size
         /\ forall p, (p < embedding_size)%nat ->
              nth p v 0%float
              = fold_left PrimFloat.add (weights_to results item p) 0%float.
Proof.
  intros Hall. unfold process_results.
  induction (distinct string_dec (map feature results)) as [|item items IH]; simpl.
  - exists []. split; [reflexivity | intros ? ? []].
  - destruct (item_embedding_cases results item)
      as [(_ & v & -> & Hlen & Hnth) | ((e & He & Hbad) & _)].
    + destruct IH as (d & -> & Hd). simpl.
      exists ((item, v) :: d). split; [reflexivity|].
      intros item' v' [E | Hin]; [inversion E; subst; auto | eauto].
    + exfalso. apply Hbad. apply in_flat_map in He as (r & Hr & He).
      apply filter_In in Hr as [Hr _]. eauto.
Qed.

Lemma process_results_wraps_low_factors_witness :
  exists d,
    process_results
      [ {| feature := "X"; factor_weights := [ {| factor := 0; weight := 2%float |} ] |} ]
    = Ok d
    /\ forall item v, In (item, v) d ->
         List.length v = embedding_size
         /\ forall p, (p < embedding_size)%nat ->
              nth p v 0%float
              = fold_left PrimFloat.add
                  (weights_to
                     [ {| feature := "X";
                          factor_weights := [ {| factor := 0; weight := 2%float |} ] |} ]
                     item p) 0%float.
Proof.
  apply (process_results_wraps_low_factors
           [ {| feature := "X";
                factor_weights := [ {| factor := 0; weight := 2%float |} ] |} ]).
  intros r e [<- | []] [<- | []]. unfold factor_in_range. simpl. lia.
Defined.

(** X13.  [process_results] raises [IndexError] exactly when some row holds
    a factor index outside -99..100; it raises nothing else. *)
Theorem process_results_index_error (results : list weights_row) :
  (exists r e, In r results /\ In e (factor_weights r) /\ ~ factor_in_range e)
  <-> process_results results = Error "IndexError: list index out of range".
Proof.
  unfold process_results. split.
  - intros (r & e & Hr & He & Hbad). apply mapM_fails_with.
    + intros item _.
      destruct (item_embedding_cases results item) as [(_ & v & -> & _) | (_ & ->)];
        simpl; eauto.
    + exists (feature r). split; [apply In_distinct; now apply in_map|].
      destruct (item_embedding_cases results (feature r))
        as [(Hall & _) | (_ & ->)]; [|reflexivity].
      exfalso. apply Hbad, Hall. now apply element_of_item.
  - intros E. apply mapM_Error_from in E as (item & _ & E).
    destruct (item_embedding_cases results item)
      as [(_ & v & Ev & _) | ((e & He & Hbad) & _)].
    + rewrite Ev in E. discriminate.
    + apply in_flat_map in He as (r & Hr & He). apply filter_In in Hr as [Hr _]. eauto.
Qed.

(** X14.  Trained with at most [num_factors <= 100] factors, the vectors are
    padded: every position from [num_factors] on is 0.0. *)
Theorem positions_beyond_num_factors_are_zero
  (results : list weights_row) (num_factors : Z) :
  num_factors <= Z.of_nat embedding_size ->
  (forall r e, In r results -> In e (factor_weights r) -> 1 <= factor e <= num_factors) ->
  exists d, process_results results = Ok d
    /\ forall item v p, In (item, v) d ->
         (Z.to_nat num_factors <= p < embedding_size)%nat ->
         nth p v 0%float = 0%float.
Proof.
  intros Hn Hall. unfold process_results.
  induction (distinct string_dec (map feature results)) as [|item items IH]; simpl.
  - exists []. split; [reflexivity | intros ? ? ? []].
  - destruct (item_embedding_accumulates results item) as (v & -> & _ & Hnth).
    { intros r e Hr He. specialize (Hall r e Hr He). lia. }
    destruct IH as (d & -> & Hd). simpl.
    exists ((item, v) :: d). split; [reflexivity|].
    intros item' v' p [E | Hin] Hp; [|eauto]. inversion E; subst.
    rewrite Hnth by lia. unfold weights_at. rewrite filter_none; [reflexivity|].
    intros e He. apply Z.eqb_neq.
    apply in_flat_map in He as (r & Hr & He). apply filter_In in Hr as [Hr _].
    specialize (Hall r e Hr He). lia.
Qed.

Lemma positions_beyond_num_factors_are_zero_witness :
  exists d,
    process_results
      [ {| feature := "X"; factor_weights := [ {| factor := 50; weight := 2%float |} ] |} ]
    = Ok d
    /\ forall item v p, In (item, v) d ->
         (Z.to_nat 50 <= p < embedding_size)%nat ->
         nth p v 0%float = 0%float.
Proof.
  apply (positions_beyond_num_factors_are_zero
           [ {| feature := "X";
                factor_weights := [ {| factor := 50; weight := 2%float |} ] |} ] 50).
  - simpl. lia.
  - intros r e [<- | []] [<- | []]. simpl. lia.
Defined.

(** ** The dictionary [process_results] returns *)

Lemma dict_get_Ok_In {V : Type} (d : list (string * V)) (k : string) (v : V) :
  dict_get d k = Ok v -> In (k, v) d.
Proof.
  induction d as [|[k' v'] t IH]; simpl; [discriminate|].
  destruct (String.eqb k' k) eqn:E.
  - apply String.eqb_eq in E. intros Hv. inversion Hv. subst. auto.
  - auto.
Qed.

Lemma dict_get_of_entry {V : Type} (d : list (string * V)) (k : string) (v : V) :
  NoDup (map fst d) -> In (k, v) d -> dict_get d k = Ok v.
Proof.
  induction d as [|[k' v'] t IH]; simpl; intros Hnd Hin; [destruct Hin|].
  inversion Hnd as [|? ? Hk Ht]; subst.
  destruct Hin as [E | Hin].
  - inversion E; subst. now rewrite String.eqb_refl.
  - destruct (String.eqb k' k) eqn:E; [|auto].
    apply String.eqb_eq in E. subst. exfalso. apply Hk.
    apply in_map_iff. exists (k, v). auto.
Qed.

(** Looking a key up fails exactly when the key is absent, and then with
    [KeyError]. *)
Lemma dict_get_missing {V : Type} (d : list (string * V)) (k : string) :
  ~ In k (map fst d) <-> dict_get d k = Error "KeyError".
Proof.
  induction d as [|[k' v'] t IH]; simpl; [tauto|].
  destruct (String.eqb k' k) eqn:E.
  - apply String.eqb_eq in E. subst. split; [tauto | discriminate].
  - apply String.eqb_neq in E. rewrite <- IH. tauto.
Qed.

Lemma dict_get_cases {V : Type} (d : list (string * V)) (k : string) :
  (In k (map fst d) /\ exists v, dict_get d k = Ok v)
  \/ (~ In k (map fst d) /\ dict_get d k = Error "KeyError").
Proof.
  induction d as [|[k' v'] t IH]; simpl; [right; tauto|].
  destruct (String.eqb k' k) eqn:E.
  - apply String.eqb_eq in E. left. eauto.
  - apply String.eqb_neq in E. destruct IH as [[Hin Hv] | [Hn He]]; [left | right]; tauto.
Qed.

(** X15.  What [process_results] returns is a dictionary: its keys are the
    features of the rows, each once, and looking up a key gives back the
    vector stored for it. *)
Theorem process_results_is_dictionary
  (results : list weights_row) (d : list (string * list float)) :
  process_results results = Ok d ->
  NoDup (map fst d)
  /\ (forall item, In item (map fst d) <-> In item (map feature results))
  /\ forall item v, dict_get d item = Ok v <-> In (item, v) d.
Proof.
  intros E. unfold process_results in E.
  assert (Hkeys : map fst d = distinct string_dec (map feature results)).
  { rewrite (mapM_map_inv _ fst (fun x => x) _ _ E); [apply map_id|].
    intros x y _ Hy. destruct (item_embedding results x); simpl in Hy; [|discriminate].
    now inversion Hy. }
  assert (Hnd : NoDup (map fst d)) by (rewrite Hkeys; apply NoDup_distinct).
  split; [assumption|]. split.
  - intros item. rewrite Hkeys. apply In_distinct.
  - intros item v. split; [apply dict_get_Ok_In | now apply dict_get_of_entry].
Qed.

Lemma process_results_is_dictionary_witness :
  NoDup [ "X"%string ]
  /\ (forall item, In item [ "X"%string ] <-> In item [ "X"%string; "X"%string ])
  /\ forall item v,
       dict_get [ ("X"%string, 2%float :: repeat 0%float 98 ++ [ 5%float ]) ] item = Ok v
       <-> In (item, v) [ ("X"%string, 2%float :: repeat 0%float 98 ++ [ 5%float ]) ].
Proof.
  exact (process_results_is_dictionary
           [ {| feature := "X"; factor_weights := [ {| factor := 1; weight := 2%float |} ] |};
             {| feature := "X"; factor_weights := [ {| factor := 0; weight := 5%float |} ] |} ]
           [ ("X"%string, 2%float :: repeat 0%float 98 ++ [ 5%float ]) ]
           eq_refl).
Defined.

(** * Further properties of the exploration loop *)

Lemma precedes_cons {A : Type} (a b y : A) (t : list A) :
  precedes a b (y :: t) <-> (y = a /\ In b t) \/ precedes a b t.
Proof.
  unfold precedes. split.
  - intros ([|z m1] & m2 & m3 & E); simpl in E; inversion E; subst.
    + left. split; [reflexivity|]. apply in_or_app. right. now left.
    + right. eauto.
  - intros [[-> Hb] | (m1 & m2 & m3 & ->)].
    + apply in_split in Hb as (m2 & m3 & ->). exists [], m2, m3. reflexivity.
    + exists (y :: m1), m2, m3. reflexivity.
Qed.

Section Stability.
Context {A : Type} (lt : A -> A -> bool).

Lemma insert_desc_keeps_precedes (x a b : A) (s : list A) :
  precedes a b s -> precedes a b (insert_desc lt x s).
Proof.
  induction s as [|y t IH]; intros Hp; simpl.
  - destruct Hp as ([|? ?] & ? & ? & E); discriminate.
  - destruct (lt x y).
    + apply precedes_cons in Hp as [[-> Hb] | Hp]; apply precedes_cons.
      * left. split; [reflexivity|].
        apply (Permutation_in _ (insert_desc_perm lt x t)). now right.
      * right. auto.
    + apply precedes_cons. now right.
Qed.

Lemma insert_desc_before (x b : A) (s : list A) :
  lt x b = false -> In b s -> precedes x b (insert_desc lt x s).
Proof.
  intros Hxb. induction s as [|y t IH]; intros Hb; [destruct Hb|]. simpl.
  destruct (lt x y) eqn:E.
  - destruct Hb as [-> | Hb]; [congruence|].
    apply precedes_cons. right. auto.
  - apply precedes_cons. left. auto.
Qed.

Lemma sort_desc_stable (a b : A) (l : list A) :
  precedes a b l -> lt a b = false -> precedes a b (sort_desc lt l).
Proof.
  intros Hp Hab. induction l as [|y t IH]; simpl.
  - destruct Hp as ([|? ?] & ? & ? & E); discriminate.
  - apply precedes_cons in Hp as [[-> Hb] | Hp].
    + apply insert_desc_before; [assumption|].
      apply (Permutation_in _ (sort_desc_perm lt t)). assumption.
    + apply insert_desc_keeps_precedes. auto.
Qed.
End Stability.

(** X16.  The ranking is stable: an entry that comes before another in
    [similar_items] and is not less similar stays before it, so items of
    equal similarity are printed in the order of [item_ids]. *)
Theorem ranking_keeps_order_of_ties {S : Type} (lt : S -> S -> bool)
  (similar_items : list (string * S)) (a b : string * S) :
  precedes a b similar_items ->
  lt (snd a) (snd b) = false ->
  precedes a b (sorted_by_similarity lt similar_items).
Proof.
  intros Hp Hab. unfold sorted_by_similarity.
  apply (sort_desc_stable (fun x y => lt (snd x) (snd y))); assumption.
Qed.

Lemma ranking_keeps_order_of_ties_witness :
  precedes ("Song A"%string, 5) ("Song B"%string, 5)
    (sorted_by_similarity Z.ltb
       [ ("Song C"%string, 1); ("Song A"%string, 5); ("Song B"%string, 5) ]).
Proof.
  apply (ranking_keeps_order_of_ties Z.ltb
           [ ("Song C"%string, 1); ("Song A"%string, 5); ("Song B"%string, 5) ]).
  - exists [ ("Song C"%string, 1) ], [], []. reflexivity.
  - reflexivity.
Defined.

Section ExplorerRuns.
Context {S : Type} (lt : S -> S -> bool).
Context (cosine_similarity : list float -> list float -> S) (round5 : S -> S).
Context (songs : list (string * string)) (item_embeddings : list (string * list float)).

Lemma key_lookup_succeeds {V : Type} (d : list (string * V)) (default : V) (k : string) :
  In k (map fst d) ->
  dict_get d k = Ok (match dict_get d k with Ok v => v | Error _ => default end).
Proof.
  intros Hk. destruct (dict_get_cases d k) as [[_ [v ->]] | [Hn _]];
    [reflexivity | contradiction].
Qed.

(** X17.  When every item has a title, the loop completes and prints a block
    for every item but the last one of [item_ids], and every block lists all
    the items but one. *)
Theorem explore_prints_all_but_last :
  (forall i, In i (map fst item_embeddings) -> In i (map fst songs)) ->
  exists out,
    explore lt cosine_similarity round5 songs item_embeddings = Ok out
    /\ List.length out = (List.length item_embeddings - 1)%nat
    /\ forall block, In block out ->
         List.length (snd block) = (List.length item_embeddings - 1)%nat.
Proof.
  intros Htitles. eexists. split.
  - apply (explore_value lt cosine_similarity round5 songs item_embeddings
             (fun i => match dict_get songs i with Ok t => t | Error _ => ""%string end)
             (fun i => match dict_get item_embeddings i with Ok e => e | Error _ => [] end)).
    + intros i Hi. apply key_lookup_succeeds. auto.
    + intros i Hi. now apply key_lookup_succeeds.
  - split.
    + rewrite length_map, length_firstn, length_map. lia.
    + intros block Hb. apply in_map_iff in Hb as (q & <- & _). simpl.
      unfold sorted_by_similarity, candidate_entries.
      set (l := sort_desc _ _).
      assert (Hlen : List.length l = List.length item_embeddings).
      { unfold l. rewrite <- (Permutation_length (sort_desc_perm _ _)).
        now rewrite !length_map. }
      destruct l; simpl in *; lia.
Qed.

(** X18.  With fewer than two items the loop prints nothing and looks
    nothing up: it completes even when [songs] has no title for the item. *)
Theorem explore_needs_two_items :
  (List.length item_embeddings <= 1)%nat ->
  explore lt cosine_similarity round5 songs item_embeddings = Ok [].
Proof.
  intros Hlen. unfold explore. rewrite length_map.
  replace (List.length item_embeddings - 1)%nat with 0%nat by lia. reflexivity.
Qed.

Lemma similarity_entry_cases (embedding1 : list float) (item2_Id : string) :
  In item2_Id (map fst item_embeddings) ->
  (In item2_Id (map fst songs)
   /\ exists entry, similarity_entry cosine_similarity round5 songs item_embeddings
                      embedding1 item2_Id = Ok entry)
  \/ (~ In item2_Id (map fst songs)
      /\ similarity_entry cosine_similarity round5 songs item_embeddings
           embedding1 item2_Id = Error "KeyError").
Proof.
  intros Hk. unfold similarity_entry.
  destruct (dict_get_cases songs item2_Id) as [[Hin [t ->]] | [Hn ->]]; [left | right; auto].
  split; [assumption|]. simpl.
  destruct (dict_get_cases item_embeddings item2_Id) as [[_ [e ->]] | [Hn _]];
    [simpl; eauto | contradiction].
Qed.

(** A missing title stops every round of the outer loop. *)
Lemma explore_item_missing_title (j item1_Id : string) :
  In j (map fst item_embeddings) -> ~ In j (map fst songs) ->
  In item1_Id (map fst item_embeddings) ->
  explore_item lt cosine_similarity round5 songs item_embeddings
    (map fst item_embeddings) item1_Id = Error "KeyError".
Proof.
  intros Hj Hmissing Hq. unfold explore_item.
  destruct (dict_get_cases songs item1_Id) as [[_ [t ->]] | [_ ->]]; [|reflexivity].
  simpl. destruct (dict_get_cases item_embeddings item1_Id) as [[_ [e ->]] | [Hn _]];
    [|contradiction].
  simpl. rewrite (mapM_fails_with _ _ "KeyError"); [reflexivity | |].
  - intros x Hx. destruct (similarity_entry_cases e x Hx) as [[_ Hok] | [_ Herr]]; auto.
  - exists j. split; [assumption|].
    destruct (similarity_entry_cases e j Hj) as [[Hin _] | [_ Herr]];
      [contradiction | assumption].
Qed.

(** X19.  With two items or more, one item without a title in [songs] makes
    the loop fail with [KeyError]. *)
Theorem explore_missing_title_raises (j : string) :
  (2 <= List.length item_embeddings)%nat ->
  In j (map fst item_embeddings) -> ~ In j (map fst songs) ->
  explore lt cosine_similarity round5 songs item_embeddings = Error "KeyError".
Proof.
  intros Hlen Hj Hmissing. unfold explore. apply mapM_fails_with.
  - intros x Hx. right. apply (explore_item_missing_title j); try assumption.
    now apply In_firstn in Hx.
  - rewrite length_map.
    destruct (map fst item_embeddings) as [|q0 rest] eqn:Ekeys.
    { apply (f_equal (@List.length string)) in Ekeys. rewrite length_map in Ekeys.
      simpl in Ekeys. lia. }
    exists q0. split.
    + destruct (List.length item_embeddings) as [|[|k]]; try lia. simpl. auto.
    + rewrite <- Ekeys.
      apply (explore_item_missing_title j); try assumption; rewrite Ekeys; simpl; auto.
Qed.
End ExplorerRuns.

Lemma explore_prints_all_but_last_witness :
  exists out,
    explore Z.ltb example_similarity (fun s => s) example_songs example_embeddings = Ok out
    /\ List.length out = 2%nat
    /\ forall block, In block out -> List.length (snd block) = 2%nat.
Proof.
  apply (explore_prints_all_but_last Z.ltb example_similarity (fun s => s)
           example_songs example_embeddings).
  intros i Hi. exact Hi.
Defined.

Lemma explore_needs_two_items_witness :
  explore Z.ltb example_similarity (fun s => s) [] [ ("a"%string, unit_vector 0) ] = Ok [].
Proof.
  apply (explore_needs_two_items Z.ltb example_similarity (fun s => s) []
           [ ("a"%string, unit_vector 0) ]).
  simpl. lia.
Defined.

Lemma explore_missing_title_raises_witness :
  explore Z.ltb example_similarity (fun s => s)
    [ ("a", "Song A"); ("b", "Song B") ]%string example_embeddings
  = Error "KeyError".
Proof.
  apply (explore_missing_title_raises Z.ltb example_similarity (fun s => s)
           [ ("a", "Song A"); ("b", "Song B") ]%string example_embeddings "c"%string).
  - simpl. lia.
  - simpl. auto.
  - simpl. intros [E | [E | []]]; discriminate.
Defined.

(** * Edge cases of the filters *)

(** X21.  Raising [max_group_size] never removes a row of
    [valid_item_groups]; raising [min_item_frequency] can add rows, since the
    size of a group counts its valid items only.  (Items 1, 2, 3 share group
    1, items 1 and 2 also share group 2; with a maximum size of 2, group 1 is
    too large for a minimum of 1 and is kept for a minimum of 2.) *)
Theorem filters_monotone_in_max_only :
  (forall (vw : list item_group) (m M M' : Z) (r : item_group),
      M <= M' -> In r (valid_item_groups vw m M) -> In r (valid_item_groups vw m M'))
  /\ exists (vw : list item_group) (m m' M : Z) (r : item_group),
       m <= m'
       /\ ~ In r (valid_item_groups vw m M)
       /\ In r (valid_item_groups vw m' M).
Proof.
  split.
  - intros vw m M M' r HM Hr.
    apply In_valid_item_groups in Hr as (Hr & Hi & Hg).
    apply In_valid_item_groups. split; [assumption|]. split; [assumption|].
    apply valid_group_iff in Hg. apply valid_group_iff. lia.
  - exists [ {| item_Id := 1; group_Id := 1 |}; {| item_Id := 2; group_Id := 1 |};
             {| item_Id := 3; group_Id := 1 |}; {| item_Id := 1; group_Id := 2 |};
             {| item_Id := 2; group_Id := 2 |} ],
           1, 2, 2, {| item_Id := 1; group_Id := 1 |}.
    split; [lia|]. vm_compute. split; [|auto].
    intros [E | [E | []]]; discriminate.
Qed.

Lemma filters_monotone_in_max_only_witness :
  In {| item_Id := 1; group_Id := 1 |} (valid_item_groups two_items_view 1 5).
Proof.
  apply (proj1 filters_monotone_in_max_only two_items_view 1 2 5).
  - lia.
  - vm_compute. auto.
Defined.

Lemma merge_max_keeps_largest_witness :
  exists r,
    In r (merge_max [ {| item1_Id := 1; item2_Id := 2; cooc := 3 |};
                      {| item1_Id := 1; item2_Id := 2; cooc := 1 |} ])
    /\ pair_key r = pair_key {| item1_Id := 1; item2_Id := 2; cooc := 3 |}
    /\ cooc {| item1_Id := 1; item2_Id := 2; cooc := 3 |} <= cooc r.
Proof.
  apply (proj1 (proj2 (merge_max_keeps_largest
                         [ {| item1_Id := 1; item2_Id := 2; cooc := 3 |};
                           {| item1_Id := 1; item2_Id := 2; cooc := 1 |} ]))).
  simpl. auto.
Defined.
